(** * Miran Search: the search-and-cache subsystem of [products/views.py]

    A shallow embedding of the text normalizer ([normalize_arabic]), the
    query planner ([ProductViewSet._search_queryset]), the search endpoint
    ([ProductViewSet.search]) and the cache layer ([list], [retrieve],
    [perform_create], [perform_update], [perform_destroy],
    [invalidate_product_cache], [invalidate_all_search_cache]).

    Python strings are sequences of Unicode code points: a text is a
    [list N].  What the views only call (the Unicode character database,
    the relational store's operators, the REST framework's generic views,
    the Redis backend and its settings) enters as the fields of a class.

    Part I holds the definitions, Part II the properties. *)

From Stdlib Require Import NArith ZArith QArith List Ascii String.
From stdpp Require Import base tactics option list gmap sorting pretty.

Local Open Scope N_scope.

(** * Part I: definitions *)

(** ** Texts *)

Abbreviation codepoint := N (only parsing).
Abbreviation text := (list N) (only parsing).

(** An ASCII literal as a text. *)
Definition cp (s : string) : text :=
  (λ a, N_of_ascii a) <$> list_ascii_of_string s.

(** Python's truth value of a [str]: the empty string is false. *)
Definition str_truthy (s : text) : bool :=
  match s with [] => false | _ :: _ => true end.

(** The truth value of [request.query_params.get(k)]: [None] and [''] are
    false. *)
Definition opt_truthy (o : option text) : bool :=
  match o with Some s => str_truthy s | None => false end.

Fixpoint is_prefix (p s : text) : bool :=
  match p, s with
  | [], _ => true
  | _ :: _, [] => false
  | a :: p', b :: s' => (a =? b) && is_prefix p' s'
  end.

(** [p in s] *)
Fixpoint is_infix (p s : text) : bool :=
  is_prefix p s || match s with [] => false | _ :: s' => is_infix p s' end.

(** [str.isspace] of one code point. *)
Definition isspace (c : codepoint) : bool :=
  ((0x9 <=? c) && (c <=? 0xd)) || ((0x1c <=? c) && (c <=? 0x20))
  || (c =? 0x85) || (c =? 0xa0) || (c =? 0x1680)
  || ((0x2000 <=? c) && (c <=? 0x200a))
  || (c =? 0x2028) || (c =? 0x2029) || (c =? 0x202f) || (c =? 0x205f)
  || (c =? 0x3000).

Fixpoint lstrip (s : text) : text :=
  match s with
  | c :: s' => if isspace c then lstrip s' else s
  | [] => []
  end.

Definition rstrip (s : text) : text := reverse (lstrip (reverse s)).

(** [str.strip()] *)
Definition strip (s : text) : text := rstrip (lstrip s).

(** ** Exceptions, log records *)

Inductive exn :=
| Http404
| DatabaseError
| ValueError
| OverflowError
| ConnectionError         (* redis-py: the server cannot be reached *)
| ResponseError.          (* redis-py: WRONGTYPE *)

Inductive outcome (A : Type) :=
| Ok (a : A)
| Raise (e : exn).
Arguments Ok {A} a.
Arguments Raise {A} e.

Inductive level := DEBUG | WARNING.

(** ** 4.1 The text normalizer *)

(** The two tables of the Unicode character database that
    [unicodedata.normalize('NFKD', _)] reads: the full compatibility
    decomposition of a code point (itself when it has none) and its
    canonical combining class. *)
Class UnicodeData := {
  full_decomposition : codepoint → text;
  combining : codepoint → N;
}.

(** [text.replace(old, new)] for one-character [old] and [new], which is
    what every entry of [replacements] is. *)
Definition str_replace (old new : codepoint) (s : text) : text :=
  (λ c, if c =? old then new else c) <$> s.

(** [replacements = {'أ': 'ا', 'إ': 'ا', 'آ': 'ا', 'ة': 'ه'}], in the
    dict's insertion order. *)
Definition replacements : list (codepoint * codepoint) :=
  [ (0x623, 0x627); (0x625, 0x627); (0x622, 0x627); (0x629, 0x647) ].

Section Normalizer.
Context {U : UnicodeData}.

(** Two adjacent code points are out of canonical order. *)
Definition reorderable (c d : codepoint) : bool :=
  (0 <? combining d) && (combining d <? combining c).

(** Canonical ordering: a combining mark moves right past the marks of a
    strictly smaller non-zero class; starters (class 0) block. *)
Fixpoint reorder_insert (c : codepoint) (l : text) : text :=
  match l with
  | [] => [c]
  | d :: l' => if reorderable c d then d :: reorder_insert c l' else c :: l
  end.

Definition canonical_order (l : text) : text := foldr reorder_insert [] l.

(** [unicodedata.normalize('NFKD', s)] *)
Definition nfkd (s : text) : text :=
  canonical_order (s ≫= full_decomposition).

(** [normalize_arabic(text)]: NFKD, then the replacement loop. *)
Definition normalize_arabic (s : text) : text :=
  fold_left (λ t '(old, new), str_replace old new t) replacements (nfkd s).

(** No adjacent pair of [l] is out of canonical order. *)
Fixpoint ordered (l : text) : bool :=
  match l with
  | [] => true
  | c :: l' =>
      match l' with
      | [] => true
      | d :: _ => negb (reorderable c d) && ordered l'
      end
  end.

End Normalizer.

(** What the replacement loop does to one code point. *)
Definition fold_char (c : codepoint) : codepoint :=
  if c =? 0x623 then 0x627
  else if c =? 0x625 then 0x627
  else if c =? 0x622 then 0x627
  else if c =? 0x629 then 0x647
  else c.

(** The Arabic block (U+0600..U+06FF) of the character database, Unicode
    14.0; every other code point is taken as a starter without
    decomposition. *)
Definition arabic_decomposition (c : codepoint) : text :=
  if c =? 0x622 then [0x627; 0x653]
  else if c =? 0x623 then [0x627; 0x654]
  else if c =? 0x624 then [0x648; 0x654]
  else if c =? 0x625 then [0x627; 0x655]
  else if c =? 0x626 then [0x64a; 0x654]
  else if c =? 0x675 then [0x627; 0x674]
  else if c =? 0x676 then [0x648; 0x674]
  else if c =? 0x677 then [0x6c7; 0x674]
  else if c =? 0x678 then [0x64a; 0x674]
  else if c =? 0x6c0 then [0x6d5; 0x654]
  else if c =? 0x6c2 then [0x6c1; 0x654]
  else if c =? 0x6d3 then [0x6d2; 0x654]
  else [c].

Definition arabic_combining (c : codepoint) : N :=
  if c =? 0x64b then 27
  else if c =? 0x64c then 28
  else if c =? 0x64d then 29
  else if (c =? 0x618) || (c =? 0x64e) then 30
  else if (c =? 0x619) || (c =? 0x64f) then 31
  else if (c =? 0x61a) || (c =? 0x650) then 32
  else if c =? 0x651 then 33
  else if c =? 0x652 then 34
  else if c =? 0x670 then 35
  else if (c =? 0x655) || (c =? 0x656) || (c =? 0x65c) || (c =? 0x65f)
          || (c =? 0x6e3) || (c =? 0x6ea) || (c =? 0x6ed) then 220
  else if ((0x610 <=? c) && (c <=? 0x617)) || (c =? 0x653) || (c =? 0x654)
          || ((0x657 <=? c) && (c <=? 0x65b)) || (c =? 0x65d) || (c =? 0x65e)
          || ((0x6d6 <=? c) && (c <=? 0x6dc)) || ((0x6df <=? c) && (c <=? 0x6e2))
          || (c =? 0x6e4) || (c =? 0x6e7) || (c =? 0x6e8) || (c =? 0x6eb)
          || (c =? 0x6ec) then 230
  else 0.

Definition arabic_block : UnicodeData :=
  {| full_decomposition := arabic_decomposition;
     combining := arabic_combining |}.

(** ** 4.2 The query planner *)

(** What the planner asks of its collaborators: the store's double
    precision arithmetic and comparisons, [TrigramSimilarity(column, query)],
    the [UPPER] behind [icontains], the collation behind [ORDER BY name],
    Python's [float()] ([None] where it raises [ValueError]), and the
    integer column's [gte]/[lte] lookups against a float.  A lookup is
    built when [filter] is called, and building it converts the float to
    an integer: [calories__gte_prep] and [calories__lte_prep] give the
    error that conversion raises for a value ([ValueError] for a
    not-a-number, [OverflowError] for an infinity), [None] when the value
    is taken. *)
Class Externals := {
  num : Type;
  float_lit : Q → num;
  fadd : num → num → num;
  fmul : num → num → num;
  fgtb : num → num → bool;
  fleb : num → num → bool;
  similarity : text → text → num;
  UPPER : text → text;
  name_leb : text → text → bool;
  float : text → option num;
  calories__gte_prep : num → option exn;
  calories__lte_prep : num → option exn;
  calories__gte : Z → num → bool;
  calories__lte : Z → num → bool;
}.

Record Category := {
  category_id : Z;
  category_name : text;
  category_description : text;
  category_slug : text;
}.

(** Lexicographic combination of two sort keys, each given by its
    "not after" test. *)
Definition lex_leb {A : Type} (le1 le2 : A → A → bool) (x y : A) : bool :=
  if le1 x y then (if le1 y x then le2 x y else true) else false.

Section Planner.
Context {U : UnicodeData} {E : Externals}.

Record Product := {
  pk : Z;
  name : text;
  brand : text;
  category : Category;
  description : text;
  calories : Z;
  protein : num;
  carbs : num;
  fats : num;
}.

(** The lookup path [category__name]. *)
Definition category__name (p : Product) : text := category_name (category p).

(** A row of the annotated queryset. *)
Record Row := {
  product : Product;
  rank : option num;
  is_exact_name_match : bool;
}.

(** [column__icontains=needle]: [UPPER(column) LIKE UPPER('%needle%')]. *)
Definition icontains (column needle : text) : bool :=
  is_infix (UPPER needle) (UPPER column).

(** [order_by('-is_exact_name_match')]: true first. *)
Definition by_exact_desc (r1 r2 : Row) : bool :=
  implb (is_exact_name_match r2) (is_exact_name_match r1).

(** [order_by('-rank')]: larger first; a missing rank sorts as NULL does in
    a descending order, first. *)
Definition by_rank_desc (r1 r2 : Row) : bool :=
  match rank r1, rank r2 with
  | Some a, Some b => fleb b a
  | None, _ => true
  | Some _, None => false
  end.

(** [order_by('name')] *)
Definition by_name_asc (r1 r2 : Row) : bool :=
  name_leb (name (product r1)) (name (product r2)).

(** [queryset.order_by(...)]: the rows sorted on the combined key. *)
Definition order_by (le : Row → Row → bool) (queryset : list Row) : list Row :=
  merge_sort (λ r1 r2, Is_true (le r1 r2)) queryset.

(** [ProductViewSet._search_queryset(query, category, calories_min,
    calories_max)] over the rows of [Product.objects]: the ordered
    queryset, or the error that escapes, and the records it logs.  Each
    calorie [try] encloses both [float(...)] and [queryset.filter(...)],
    and its handler catches [ValueError] only. *)
Definition _search_queryset (objects : list Product) (query : text)
    (category calories_min calories_max : option text)
  : outcome (list Row) * list (level * text) :=
  let query := normalize_arabic query in
  let category :=
    if opt_truthy category then normalize_arabic <$> category else category in
  let queryset := objects in
  let queryset :=
    match category with
    | Some c =>
        if str_truthy c
        then List.filter (λ p, icontains (category__name p) c) queryset
        else queryset
    | None => queryset
    end in
  let '(filtered, log1) :=
    match calories_min with
    | Some v =>
        if str_truthy v then
          match float v with
          | Some f =>
              match calories__gte_prep f with
              | None =>
                  (Ok (List.filter (λ p, calories__gte (calories p) f) queryset),
                   [])
              | Some ValueError =>
                  (Ok queryset,
                   [(WARNING, cp "Invalid calories_min value: " ++ v)])
              | Some e => (Raise e, [])
              end
          | None =>
              (Ok queryset, [(WARNING, cp "Invalid calories_min value: " ++ v)])
          end
        else (Ok queryset, [])
    | None => (Ok queryset, [])
    end in
  match filtered with
  | Raise e => (Raise e, log1)
  | Ok queryset =>
  let '(filtered, log2) :=
    match calories_max with
    | Some v =>
        if str_truthy v then
          match float v with
          | Some f =>
              match calories__lte_prep f with
              | None =>
                  (Ok (List.filter (λ p, calories__lte (calories p) f) queryset),
                   [])
              | Some ValueError =>
                  (Ok queryset,
                   [(WARNING, cp "Invalid calories_max value: " ++ v)])
              | Some e => (Raise e, [])
              end
          | None =>
              (Ok queryset, [(WARNING, cp "Invalid calories_max value: " ++ v)])
          end
        else (Ok queryset, [])
    | None => (Ok queryset, [])
    end in
  match filtered with
  | Raise e => (Raise e, log1 ++ log2)
  | Ok queryset =>
  let queryset :=
    if (length query <=? 2)%nat then
      order_by (lex_leb by_exact_desc by_name_asc)
        ((λ p, {| product := p;
                  rank := None;
                  is_exact_name_match := icontains (name p) query |})
         <$> List.filter
               (λ p, icontains (name p) query
                     || icontains (brand p) query
                     || icontains (description p) query
                     || icontains (category__name p) query)
               queryset)
    else
      order_by (lex_leb by_exact_desc (lex_leb by_rank_desc by_name_asc))
        (List.filter
           (λ r, match rank r with
                 | Some k => fgtb k (float_lit 0.2)
                 | None => false
                 end)
           ((λ p, {| product := p;
                     rank := Some
                       (fadd (fadd (fadd
                          (fmul (similarity (name p) query) (float_lit 2.0))
                          (fmul (similarity (brand p) query) (float_lit 1.0)))
                          (fmul (similarity (description p) query) (float_lit 0.5)))
                          (fmul (similarity (category__name p) query) (float_lit 0.8)));
                     is_exact_name_match := icontains (name p) query |})
            <$> queryset))
  in
  (Ok queryset, log1 ++ log2)
  end
  end.

(** *** The planner's contract in the specification's words *)


(** The category filter that takes part: present and non-empty, before
    and after normalization. *)
Definition category_filter (category : option text) : option text :=
  match category with
  | Some c => if str_truthy c then
                let c' := normalize_arabic c in
                if str_truthy c' then Some c' else None
              else None
  | None => None
  end.

(** What a calorie parameter comes to: no bound (absent, empty, refused
    by [float()], or refused by the lookup with a [ValueError]), a bound,
    or the error the lookup raises past the handler. *)
Inductive bound :=
| Unbounded
| Bounded (f : num)
| Failing (e : exn).

Definition calorie_bound (prep : num → option exn) (v : option text) : bound :=
  match v with
  | Some s =>
      if str_truthy s then
        match float s with
        | Some f =>
            match prep f with
            | None => Bounded f
            | Some ValueError => Unbounded
            | Some e => Failing e
            end
        | None => Unbounded
        end
      else Unbounded
  | None => Unbounded
  end.

(** A non-empty parameter that comes to no bound is reported. *)
Definition bound_warning (prep : num → option exn) (label : text)
    (v : option text) : list (level * text) :=
  match v with
  | Some s =>
      if str_truthy s then
        match calorie_bound prep v with
        | Unbounded => [(WARNING, label ++ s)]
        | _ => []
        end
      else []
  | None => []
  end.

(** A row passes the filters that take part. *)
Definition candidate (category : option text) (lower upper : bound)
    (p : Product) : bool :=
  match category_filter category with
  | Some c => icontains (category__name p) c
  | None => true
  end
  && match lower with
     | Bounded f => calories__gte (calories p) f
     | _ => true
     end
  && match upper with
     | Bounded f => calories__lte (calories p) f
     | _ => true
     end.

(** The candidate rows: the catalog after category and calorie filtering,
    or the error a calorie bound raises, the lower bound first. *)
Definition candidates (category calories_min calories_max : option text)
    (objects : list Product) : outcome (list Product) :=
  match calorie_bound calories__gte_prep calories_min with
  | Failing e => Raise e
  | lower =>
      match calorie_bound calories__lte_prep calories_max with
      | Failing e => Raise e
      | upper => Ok (List.filter (candidate category lower upper) objects)
      end
  end.

(** The records of one planner run: the lower bound's, then, when the
    lower bound did not fail, the upper bound's. *)
Definition planner_log (calories_min calories_max : option text)
  : list (level * text) :=
  bound_warning calories__gte_prep (cp "Invalid calories_min value: ")
    calories_min
  ++ match calorie_bound calories__gte_prep calories_min with
     | Failing _ => []
     | _ => bound_warning calories__lte_prep
              (cp "Invalid calories_max value: ") calories_max
     end.

(** The weighted sum of section 4.2. *)
Definition weighted_rank (q : text) (p : Product) : num :=
  fadd (fadd (fadd
    (fmul (similarity (name p) q) (float_lit 2.0))
    (fmul (similarity (brand p) q) (float_lit 1.0)))
    (fmul (similarity (description p) q) (float_lit 0.5)))
    (fmul (similarity (category__name p) q) (float_lit 0.8)).

End Planner.

(** ** 6. The search endpoint *)

(** One page of a paginated queryset, as [paginate_queryset] hands it to
    [get_paginated_response]. *)
Record Page {E : Externals} := {
  object_list : list Row;
  page_count : N;
  next_link : option text;
  previous_link : option text;
}.

(** The REST framework behind [search]: the serializer's output for one
    row and the paginator ([None] when pagination is off; an invalid page
    raises). *)
Class Framework {E : Externals} := {
  Repr : Type;
  to_representation : Row → Repr;
  paginate_queryset : gmap text text → list Row → outcome (option Page);
}.

(** What an instrumented run of [search] records. *)
Inductive event :=
| Logged (l : level) (msg : text)
| Planned (query : text) (category calories_min calories_max : option text)
| Evaluated.

Section Endpoint.
Context {U : UnicodeData} {E : Externals} {F : Framework}.

Inductive Response :=
| Response_page (count : N) (next previous : option text) (results : list Repr)
| Response_list (results : list Repr).

(** [ProductViewSet.search(request)]: the response and the trace. *)
Definition search (objects : list Product) (query_params : gmap text text)
  : outcome Response * list event :=
  let query := strip (default [] (query_params !! cp "q")) in
  let category := query_params !! cp "category" in
  let calories_min := query_params !! cp "calories_min" in
  let calories_max := query_params !! cp "calories_max" in
  if negb (str_truthy query) then
    (Ok (Response_page 0 None None []), [])
  else
    let '(planned, log) :=
      _search_queryset objects query category calories_min calories_max in
    let trace :=
      Planned query category calories_min calories_max
      :: ((λ '(l, msg), Logged l msg) <$> log) in
    match planned with
    | Raise e => (Raise e, trace)
    | Ok queryset =>
        let trace := trace ++ [Evaluated] in
        match paginate_queryset query_params queryset with
        | Raise e => (Raise e, trace)
        | Ok (Some page) =>
            (Ok (Response_page (page_count page) (next_link page)
                   (previous_link page)
                   (to_representation <$> object_list page)),
             trace)
        | Ok None =>
            (Ok (Response_list (to_representation <$> queryset)), trace)
        end
    end.

End Endpoint.

(** ** 4.3 The cache layer *)

(** Redis glob matching, for the patterns the views build: literals, [?]
    and [*]. *)
Fixpoint glob_match (pat : text) : text → bool :=
  match pat with
  | [] => λ s, match s with [] => true | _ :: _ => false end
  | c :: pat' =>
      if c =? 42 then
        fix star (s : text) : bool :=
          glob_match pat' s
          || match s with [] => false | _ :: s' => star s' end
      else if c =? 63 then
        λ s, match s with [] => false | _ :: s' => glob_match pat' s' end
      else
        λ s, match s with
             | [] => false
             | d :: s' => (c =? d) && glob_match pat' s'
             end
  end.

(** The generic views and the backend the product views are built on:
    the catalog behind [super().list], [super().retrieve],
    [serializer.save()] and [instance.delete()], and the cache settings
    ([make_key]'s prefix, [DJANGO_REDIS_IGNORE_EXCEPTIONS]). *)
Class Views := {
  Catalog : Type;
  Data : Type;
  Serializer : Type;
  data_truthy : Data → bool;
  super_list : gmap text text → Catalog → outcome Data;
  super_retrieve : text → Catalog → outcome Data;
  serializer_save : Serializer → Catalog → outcome (Z * Catalog);
  instance_delete : Z → Catalog → outcome Catalog;
  key_prefix : text;
  ignore_exceptions : bool;
}.

Section CacheLayer.
Context {V : Views}.

(** A Redis value: a cached response with its timeout, or a set of keys. *)
Inductive entry :=
| EString (value : Data) (timeout : N)
| ESet (members : gset text).

(** The catalog, the Redis database ([None]: unreachable) and the log. *)
Record world := {
  catalog : Catalog;
  redis : option (gmap text entry);
  log : list (level * text);
}.

Definition set_redis (m : gmap text entry) (w : world) : world :=
  {| catalog := catalog w; redis := Some m; log := log w |}.

Definition set_catalog (c : Catalog) (w : world) : world :=
  {| catalog := c; redis := redis w; log := log w |}.

(** Computations over the world that may raise. *)
Definition M (A : Type) : Type := world → outcome A * world.

Definition ret {A : Type} (a : A) : M A := λ w, (Ok a, w).

Definition bind {A B : Type} (m : M A) (k : A → M B) : M B :=
  λ w, match m w with
       | (Ok a, w') => k a w'
       | (Raise e, w') => (Raise e, w')
       end.

Notation "'let!' x ':=' m 'in' k" := (bind m (λ x, k))
  (at level 10, x name, m at level 100, k at level 200, only parsing).

Definition raise {A : Type} (e : exn) : M A := λ w, (Raise e, w).

(** [logger.debug(msg)] *)
Definition logger_debug (msg : text) : M () :=
  λ w, (Ok (), {| catalog := catalog w; redis := redis w;
                  log := log w ++ [(DEBUG, msg)] |}).

(** django-redis's [omit_exception] around a cache command that failed
    with the redis-py error [cause]: the default is returned when
    exceptions are ignored, and [cause] itself is raised again when not. *)
Definition omit_exception {A : Type} (cause : exn) (dflt : A) : M A :=
  if ignore_exceptions then ret dflt else raise cause.

Definition make_key (key : text) : text := key_prefix ++ key.

(** [cache.get(key)] *)
Definition cache_get (key : text) : M (option Data) :=
  λ w, match redis w with
       | Some m =>
           match m !! make_key key with
           | Some (EString v _) => (Ok (Some v), w)
           | Some (ESet _) => omit_exception ResponseError None w
           | None => (Ok None, w)
           end
       | None => omit_exception ConnectionError None w
       end.

(** [cache.set(key, value, timeout=t)] *)
Definition cache_set (key : text) (value : Data) (t : N) : M () :=
  λ w, match redis w with
       | Some m => (Ok (), set_redis (<[make_key key := EString value t]> m) w)
       | None => omit_exception ConnectionError () w
       end.

(** [cache.delete(key)] *)
Definition cache_delete (key : text) : M () :=
  λ w, match redis w with
       | Some m => (Ok (), set_redis (delete (make_key key) m) w)
       | None => omit_exception ConnectionError () w
       end.

(** A raw key is swept by [delete_pattern(pat)]: it carries the prefix
    and its rest matches the pattern. *)
Definition swept (pat key : text) : bool :=
  is_prefix key_prefix key && glob_match pat (drop (length key_prefix) key).

(** [cache.delete_pattern(pat)] *)
Definition cache_delete_pattern (pat : text) : M () :=
  λ w, match redis w with
       | Some m =>
           (Ok (), set_redis (filter (λ kv, swept pat kv.1 = false) m) w)
       | None => omit_exception ConnectionError () w
       end.

(** [get_redis_connection("default").smembers(key)] *)
Definition redis_smembers (key : text) : M (gset text) :=
  λ w, match redis w with
       | Some m =>
           match m !! key with
           | Some (ESet s) => (Ok s, w)
           | Some (EString _ _) => (Raise ResponseError, w)
           | None => (Ok ∅, w)
           end
       | None => (Raise ConnectionError, w)
       end.

(** [get_redis_connection("default").delete] of several keys *)
Definition redis_delete (keys : list text) : M () :=
  λ w, match redis w with
       | Some m => (Ok (), set_redis (foldr delete m keys) w)
       | None => (Raise ConnectionError, w)
       end.

(** A call into the generic views, which read or change the catalog. *)
Definition read_catalog {A : Type} (f : Catalog → outcome A) : M A :=
  λ w, (f (catalog w), w).

Definition write_catalog {A : Type} (f : Catalog → outcome (A * Catalog))
  : M A :=
  λ w, match f (catalog w) with
       | Ok (a, c) => (Ok a, set_catalog c w)
       | Raise e => (Raise e, w)
       end.

(** [f"{product_id}"] for the integer primary key. *)
Definition str_of_id (product_id : Z) : text := cp (pretty product_id).

(** [ProductViewSet.list(request)] ([list] is Rocq's type of lists). *)
Definition list_products (query_params : gmap text text) : M Data :=
  let page_number := default (cp "1") (query_params !! cp "page") in
  let cache_key := cp "products:all:page:" ++ page_number in
  let! cached_response := cache_get cache_key in
  match cached_response with
  | Some d =>
      if data_truthy d then
        let! _ := logger_debug (cp "[CACHE HIT] " ++ cache_key) in
        ret d
      else
        let! response := read_catalog (super_list query_params) in
        let! _ := cache_set cache_key response 600 in
        ret response
  | None =>
      let! response := read_catalog (super_list query_params) in
      let! _ := cache_set cache_key response 600 in
      ret response
  end.

(** [ProductViewSet.retrieve(request, pk=product_id)] *)
Definition retrieve (product_id : text) : M Data :=
  let cache_key := cp "products:" ++ product_id in
  let! cached_response := cache_get cache_key in
  match cached_response with
  | Some d =>
      if data_truthy d then
        let! _ := logger_debug (cp "[CACHE HIT] " ++ cache_key) in
        ret d
      else
        let! response := read_catalog (super_retrieve product_id) in
        let! _ := cache_set cache_key response 600 in
        ret response
  | None =>
      let! response := read_catalog (super_retrieve product_id) in
      let! _ := cache_set cache_key response 600 in
      ret response
  end.

(** [ProductViewSet.invalidate_all_search_cache()] *)
Definition invalidate_all_search_cache : M () :=
  let! keys := redis_smembers (cp "search_keys") in
  if decide (keys = ∅) then ret ()
  else
    let! _ := redis_delete (elements keys ++ [cp "search_keys"]) in
    logger_debug (cp "[CACHE CLEARED] search:*").

(** [ProductViewSet.invalidate_product_cache(product_id)] *)
Definition invalidate_product_cache (product_id : Z) : M () :=
  let! _ := cache_delete_pattern (cp "products:all:*") in
  let! _ := cache_delete (cp "products:" ++ str_of_id product_id) in
  invalidate_all_search_cache.

(** [perform_create(serializer)], [perform_update(serializer)]: save,
    then invalidate under the saved product's id. *)
Definition perform_create (serializer : Serializer) : M () :=
  let! product_id := write_catalog (serializer_save serializer) in
  invalidate_product_cache product_id.

Definition perform_update (serializer : Serializer) : M () :=
  let! product_id := write_catalog (serializer_save serializer) in
  invalidate_product_cache product_id.

(** [perform_destroy(instance)], the instance given by its id. *)
Definition perform_destroy (product_id : Z) : M () :=
  let! _ := write_catalog
              (λ c, match instance_delete product_id c with
                    | Ok c' => Ok ((), c')
                    | Raise e => Raise e
                    end) in
  invalidate_product_cache product_id.

(** *** The key scheme, as the views spell it *)

Definition list_cache_key (page_number : text) : text :=
  cp "products:all:page:" ++ page_number.

Definition detail_cache_key (product_id : text) : text :=
  cp "products:" ++ product_id.

Definition registry_key : text := cp "search_keys".

(** The registry is absent or a set: [SMEMBERS] answers. *)
Definition registry_ok (m : gmap text entry) : Prop :=
  match m !! registry_key with
  | Some (EString _ _) => False
  | _ => True
  end.

(** The members of the registry. *)
Definition registered (m : gmap text entry) : gset text :=
  match m !! registry_key with
  | Some (ESet s) => s
  | _ => ∅
  end.

(** What a write leaves of the cache [before]: no list page, no detail
    entry of the written product, none of the registered search keys, and
    an empty registry. *)
Definition invalidated (product_id : Z) (before after : gmap text entry)
  : Prop :=
  (∀ page_number, after !! make_key (list_cache_key page_number) = None)
  ∧ after !! make_key (detail_cache_key (str_of_id product_id)) = None
  ∧ (∀ k, k ∈ registered before → after !! k = None)
  ∧ registered after = ∅
  ∧ (registered before ≠ ∅ → after !! registry_key = None).

End CacheLayer.

(** ** Laws of the collaborators *)


(** What idempotence of the normalizer needs of the character database:
    full decompositions are fully decomposed, and the letters the
    replacement table reads and writes are starters, the written ones
    without decomposition. *)
Class UnicodeLaws {U : UnicodeData} : Prop := {
  decomposition_full :
    ∀ c d, d ∈ full_decomposition c → full_decomposition d = [d];
  alef_plain : full_decomposition 0x627 = [0x627];
  heh_plain : full_decomposition 0x647 = [0x647];
  fold_char_combining : ∀ c, combining (fold_char c) = combining c;
}.

(** ** A small concrete instance, for examples *)

Definition ascii_upper (c : codepoint) : codepoint :=
  if (97 <=? c) && (c <=? 122) then c - 32 else c.

(** Code point order on texts. *)
Fixpoint codepoint_leb (s t : text) : bool :=
  match s, t with
  | [], _ => true
  | _ :: _, [] => false
  | a :: s', b :: t' => (a <? b) || ((a =? b) && codepoint_leb s' t')
  end.

Fixpoint parse_digits (acc : N) (s : text) : option N :=
  match s with
  | [] => Some acc
  | c :: s' =>
      if (48 <=? c) && (c <=? 57)
      then parse_digits (10 * acc + (c - 48)) s'
      else None
  end.

(** A non-empty run of decimal digits. *)
Definition parse_decimal (s : text) : option N :=
  match s with [] => None | _ :: _ => parse_digits 0 s end.

(** A stand-in for the trigram similarity: the share of the query's code
    points that occur in the column, ignoring ASCII case. *)
Definition shared_ratio (column query : text) : Q :=
  let column := ascii_upper <$> column in
  let query := ascii_upper <$> query in
  Z.of_nat (length (List.filter (λ c, bool_decide (c ∈ column)) query))
  # Pos.of_nat (length query).

(** Exact rationals for the scores, code point collation, ASCII case.
    Every value [float] gives here is finite, so the lookups take it. *)
Definition exact_store : Externals :=
  {| num := Q;
     float_lit := λ q, q;
     fadd := Qplus;
     fmul := Qmult;
     fgtb := λ a b, negb (Qle_bool a b);
     fleb := Qle_bool;
     similarity := shared_ratio;
     UPPER := fmap ascii_upper;
     name_leb := codepoint_leb;
     float := λ s, (λ n, inject_Z (Z.of_N n)) <$> parse_decimal s;
     calories__gte_prep := λ _, None;
     calories__lte_prep := λ _, None;
     calories__gte := λ c f, Qle_bool f (inject_Z c);
     calories__lte := λ c f, Qle_bool (inject_Z c) f |}.

(** Pages of thirty rows, products shown by name. *)
Definition plain_framework : @Framework exact_store :=
  {| Repr := text;
     to_representation := λ r, @name exact_store (product r);
     paginate_queryset := λ _ queryset,
       Ok (Some {| object_list := take 30 queryset;
                   page_count := N.of_nat (length queryset);
                   next_link := None;
                   previous_link := None |}) |}.

Definition fruits : Category :=
  {| category_id := 1; category_name := cp "Fruits";
     category_description := []; category_slug := cp "fruits" |}.

Definition mk_product (i : Z) (n b d : string) (cal : Z)
  : @Product exact_store :=
  @Build_Product exact_store i (cp n) (cp b) fruits (cp d) cal 0%Q 0%Q 0%Q.

Definition shelf : list (@Product exact_store) :=
  [ mk_product 1 "Green Apple" "Organic" "" 52;
    mk_product 2 "Apple Pie" "Bakery" "" 10;
    mk_product 3 "Cider" "Apple" "pressed" 60;
    mk_product 4 "ab" "Acme" "" 52;
    mk_product 5 "Soda" "ab" "" 40 ].

(** A catalog of [(id, name)] rows behind the generic views: [list]
    answers every row, [retrieve] looks the key up as an integer,
    [save()] appends under a fresh id or renames, [delete()] removes. *)
Definition lookup_pk (product_id : text) (c : list (Z * text))
  : outcome (list (Z * text)) :=
  match parse_decimal product_id with
  | Some i =>
      match List.filter (λ r, (r.1 =? Z.of_N i)%Z) c with
      | [] => Raise Http404
      | r :: _ => Ok [r]
      end
  | None => Raise Http404
  end.

Definition save_row (s : option Z * text) (c : list (Z * text))
  : outcome (Z * list (Z * text)) :=
  match s.1 with
  | None =>
      let i := (1 + foldr Z.max 0 (fst <$> c))%Z in
      Ok (i, c ++ [(i, s.2)])
  | Some i => Ok (i, (λ r, if (r.1 =? i)%Z then (i, s.2) else r) <$> c)
  end.

Definition row_views (ignore : bool) : Views :=
  {| Catalog := list (Z * text);
     Data := list (Z * text);
     Serializer := option Z * text;
     data_truthy := λ d, match d with [] => false | _ :: _ => true end;
     super_list := λ _ c, Ok c;
     super_retrieve := lookup_pk;
     serializer_save := save_row;
     instance_delete := λ i c, Ok (List.filter (λ r, negb (r.1 =? i)%Z) c);
     key_prefix := cp ":1:";
     ignore_exceptions := ignore |}.

(** A catalog of two products with an empty, reachable cache; the same
    with the cache unreachable. *)
Definition pantry (ignore : bool) : @world (row_views ignore) :=
  @Build_world (row_views ignore)
    [(1%Z, cp "Apple"); (2%Z, cp "Pear")] (Some ∅) [].

Definition pantry_down (ignore : bool) : @world (row_views ignore) :=
  @Build_world (row_views ignore)
    [(1%Z, cp "Apple"); (2%Z, cp "Pear")] None [].

(** The pantry after [GET /products/], [GET /products/2/] and
    [GET /products/01/]. *)
Definition warmed : @world (row_views false) :=
  (@retrieve (row_views false) (cp "01")
     (@retrieve (row_views false) (cp "2")
        (@list_products (row_views false) ∅ (pantry false)).2).2).2.

(** Then product 1 is renamed. *)
Definition renamed : outcome () * @world (row_views false) :=
  @perform_update (row_views false) (Some 1%Z, cp "Apricot") warmed.

(** A cache that holds a list page, a detail entry, and one registered
    search result. *)
Definition stocked_cache : gmap text (@entry (row_views false)) :=
  {[ cp ":1:products:all:page:1" :=
       @EString (row_views false) [(1%Z, cp "Apple"); (2%Z, cp "Pear")] 600;
     cp ":1:products:1" := @EString (row_views false) [(1%Z, cp "Apple")] 600;
     cp "search:apple" := @EString (row_views false) [(1%Z, cp "Apple")] 600;
     cp "search_keys" := @ESet (row_views false) {[ cp "search:apple" ]} ]}.

Definition stocked : @world (row_views false) :=
  @Build_world (row_views false)
    [(1%Z, cp "Apple"); (2%Z, cp "Pear")] (Some stocked_cache) [].

(** ** The models: [Category.save] *)

(** A [Category] instance as [save()] meets it: without id before its
    first save. *)
Record CategoryInstance := {
  instance_id : option Z;
  instance_name : text;
  instance_description : text;
  instance_slug : text;
}.

(** [Category.objects.filter(slug=slug).exclude(id=self.id).exists()];
    excluding the id [None] excludes no row. *)
Definition slug_taken (table : list Category) (self_id : option Z)
    (slug : text) : bool :=
  existsb
    (λ c, bool_decide (category_slug c = slug)
          && negb (bool_decide (Some (category_id c) = self_id)))
    table.

(** The [while] loop of [save()], run for at most [fuel] probes: [slug]
    is the candidate on entry, [counter] the suffix of the next one. *)
Fixpoint slug_loop (fuel : nat) (taken : text → bool) (base_slug slug : text)
    (counter : N) : option text :=
  match fuel with
  | O => None
  | S fuel' =>
      if taken slug
      then slug_loop fuel' taken base_slug
             (base_slug ++ cp "-" ++ cp (pretty counter)) (counter + 1)
      else Some slug
  end.

Section Models.
(** [django.utils.text.slugify] and [Model.save], which [Category.save]
    ends with. *)
Variable slugify : text → text.
Variable Saved : Type.
Variable super_save : CategoryInstance → list Category → Saved.

(** [Category.save()] over the rows of the table.  The loop is given one
    probe more than the table has rows; [None] would mean it needs more. *)
Definition Category_save (self : CategoryInstance) (table : list Category)
  : option Saved :=
  if negb (str_truthy (instance_slug self)) then
    let base_slug := slugify (instance_name self) in
    match slug_loop (S (length table))
            (slug_taken table (instance_id self)) base_slug base_slug 1 with
    | Some slug =>
        Some (super_save
                {| instance_id := instance_id self;
                   instance_name := instance_name self;
                   instance_description := instance_description self;
                   instance_slug := slug |} table)
    | None => None
    end
  else Some (super_save self table).

End Models.

(** The [k]-th slug the loop tries. *)
Definition slug_candidate (base_slug : text) (k : N) : text :=
  if k =? 0 then base_slug else base_slug ++ cp "-" ++ cp (pretty k).

(** ** The seeding command: the batches of [handle] *)

Section Populate.
(** The product built in iteration [i]. *)
Context {A : Type}.
Variable make : nat → A.

(** What the loop of [handle] carries: the pending [products], the
    counter [total_inserted] and, in order, the batches handed to
    [bulk_create]. *)
Record load := {
  products : list A;
  total_inserted : N;
  batches : list (list A);
}.

(** One iteration for index [i]; [bulk_create] refuses a batch size that
    is not positive ([None]). *)
Definition handle_step (count batch_size : Z) (st : option load) (i : nat)
  : option load :=
  match st with
  | Some st =>
      let products := products st ++ [make i] in
      if (batch_size <=? Z.of_nat (length products))%Z
         || (Z.of_nat i =? count - 1)%Z
      then
        if (0 <? batch_size)%Z then
          Some {| products := [];
                  total_inserted :=
                    total_inserted st + N.of_nat (length products);
                  batches := batches st ++ [products] |}
        else None
      else
        Some {| products := products;
                total_inserted := total_inserted st;
                batches := batches st |}
  | None => None
  end.

(** The loop [for i in range(count)] of [handle]. *)
Definition handle (count batch_size : Z) : option load :=
  fold_left (handle_step count batch_size) (seq 0 (Z.to_nat count))
    (Some {| products := []; total_inserted := 0; batches := [] |}).

End Populate.

(** ** More concrete instances *)

(** ASCII lower case, standing in for [slugify]. *)
Definition ascii_lower (c : codepoint) : codepoint :=
  if (65 <=? c) && (c <=? 90) then c + 32 else c.

Definition mk_category (i : Z) (n s : string) : Category :=
  {| category_id := i; category_name := cp n;
     category_description := []; category_slug := cp s |}.

(** The catalog of [row_views], with writes that can fail: renaming or
    deleting a product that is not there raises. *)
Definition save_row_checked (s : option Z * text) (c : list (Z * text))
  : outcome (Z * list (Z * text)) :=
  match s.1 with
  | Some i =>
      if existsb (λ r, (r.1 =? i)%Z) c then save_row s c else Raise Http404
  | None => save_row s c
  end.

Definition checked_views : Views :=
  {| Catalog := list (Z * text);
     Data := list (Z * text);
     Serializer := option Z * text;
     data_truthy := λ d, match d with [] => false | _ :: _ => true end;
     super_list := λ _ c, Ok c;
     super_retrieve := lookup_pk;
     serializer_save := save_row_checked;
     instance_delete := λ i c,
       if existsb (λ r, (r.1 =? i)%Z) c
       then Ok (List.filter (λ r, negb (r.1 =? i)%Z) c)
       else Raise Http404;
     key_prefix := cp ":1:";
     ignore_exceptions := false |}.

(** The pantry with an empty body cached for product 2. *)
Definition chilled : @world (row_views false) :=
  @Build_world (row_views false)
    [(1%Z, cp "Apple"); (2%Z, cp "Pear")]
    (Some {[ cp ":1:products:2" := @EString (row_views false) [] 600 ]}) [].

(** A store whose scores are double-precision values as far as the
    planner tells them apart: finite, an infinity, or a not-a-number.
    [float] reads [inf], [-inf] and [nan] besides the digits; the integer
    lookups refuse a not-a-number with [ValueError] and an infinity with
    [OverflowError]. *)
Inductive double :=
| Finite (q : Q)
| Infinity (negative : bool)
| NaN.

Definition double_add (a b : double) : double :=
  match a, b with
  | Finite x, Finite y => Finite (x + y)
  | Infinity s, Finite _ | Finite _, Infinity s => Infinity s
  | Infinity s, Infinity t => if Bool.eqb s t then Infinity s else NaN
  | NaN, _ | _, NaN => NaN
  end.

Definition double_negative (a : double) : bool :=
  match a with
  | Finite x => negb (Qle_bool 0 x)
  | Infinity s => s
  | NaN => false
  end.

Definition double_zero (a : double) : bool :=
  match a with
  | Finite x => Qeq_bool x 0
  | _ => false
  end.

Definition double_mul (a b : double) : double :=
  match a, b with
  | Finite x, Finite y => Finite (x * y)
  | NaN, _ | _, NaN => NaN
  | _, _ =>
      if double_zero a || double_zero b then NaN
      else Infinity (xorb (double_negative a) (double_negative b))
  end.

Definition double_leb (a b : double) : bool :=
  match a, b with
  | Finite x, Finite y => Qle_bool x y
  | NaN, _ | _, NaN => false
  | Infinity true, _ | _, Infinity false => true
  | _, _ => false
  end.

Definition double_gtb (a b : double) : bool :=
  match a, b with
  | NaN, _ | _, NaN => false
  | _, _ => negb (double_leb a b)
  end.

Definition parse_double (s : text) : option double :=
  if bool_decide (s = cp "inf") then Some (Infinity false)
  else if bool_decide (s = cp "-inf") then Some (Infinity true)
  else if bool_decide (s = cp "nan") then Some NaN
  else (λ n, Finite (inject_Z (Z.of_N n))) <$> parse_decimal s.

Definition integer_prep (f : double) : option exn :=
  match f with
  | Finite _ => None
  | Infinity _ => Some OverflowError
  | NaN => Some ValueError
  end.

Definition double_store : Externals :=
  {| num := double;
     float_lit := Finite;
     fadd := double_add;
     fmul := double_mul;
     fgtb := double_gtb;
     fleb := double_leb;
     similarity := λ column query, Finite (shared_ratio column query);
     UPPER := fmap ascii_upper;
     name_leb := codepoint_leb;
     float := parse_double;
     calories__gte_prep := integer_prep;
     calories__lte_prep := integer_prep;
     calories__gte := λ c f, double_leb f (Finite (inject_Z c));
     calories__lte := λ c f, double_leb (Finite (inject_Z c)) f |}.

Definition larder : list (@Product double_store) :=
  [ @Build_Product double_store 1 (cp "Green Apple") (cp "Organic") fruits []
      52 (Finite 0) (Finite 0) (Finite 0);
    @Build_Product double_store 2 (cp "Apple Pie") (cp "Bakery") fruits []
      10 (Finite 0) (Finite 0) (Finite 0) ].

(** * Part II: properties *)

(** ** Texts *)

Lemma is_prefix_spec (p s : text) :
  is_prefix p s = true ↔ ∃ rest, s = p ++ rest.
Proof.
  revert s. induction p as [|a p IH]; intros s; simpl.
  - split; [eauto|done].
  - destruct s as [|b s].
    + split; [done|]. intros [rest H]; discriminate.
    + rewrite andb_true_iff, N.eqb_eq, IH. split.
      * intros [-> [rest ->]]. eauto.
      * intros [rest H]. injection H as -> ->. eauto.
Qed.

Lemma is_infix_spec (p s : text) :
  is_infix p s = true ↔ ∃ pre post, s = pre ++ p ++ post.
Proof.
  induction s as [|b s IH]; simpl.
  - rewrite orb_false_r, is_prefix_spec. split.
    + intros [rest H]. exists [], rest. exact H.
    + intros [pre [post H]]. destruct pre; [eauto|discriminate].
  - rewrite orb_true_iff, IH, is_prefix_spec. split.
    + intros [[rest H]|[pre [post H]]].
      * exists [], rest. exact H.
      * exists (b :: pre), post. simpl. by rewrite H.
    + intros [pre [post H]]. destruct pre as [|c pre].
      * left. eauto.
      * right. injection H as -> ->. eauto.
Qed.

Lemma lstrip_all_space (s : text) :
  Forall (λ c, isspace c = true) s → lstrip s = [].
Proof.
  induction 1 as [|c s Hc _ IH]; [done|]. simpl. by rewrite Hc.
Qed.

Lemma strip_all_space (s : text) :
  Forall (λ c, isspace c = true) s → strip s = [].
Proof. intros H. unfold strip. by rewrite (lstrip_all_space s H). Qed.

(** ** 4.1 The text normalizer *)

Lemma replacements_fold_char (t : text) :
  fold_left (λ t '(old, new), str_replace old new t) replacements t
  = fold_char <$> t.
Proof.
  unfold replacements, str_replace; simpl.
  rewrite <- !list_fmap_compose.
  apply list_fmap_ext; intros _ c _; unfold fold_char; simpl.
  destruct (N.eqb_spec c 0x623) as [->|]; [reflexivity|].
  destruct (N.eqb_spec c 0x625) as [->|]; [reflexivity|].
  destruct (N.eqb_spec c 0x622) as [->|]; [reflexivity|].
  destruct (N.eqb_spec c 0x629) as [->|]; reflexivity.
Qed.

Lemma fold_char_idem (c : codepoint) : fold_char (fold_char c) = fold_char c.
Proof.
  unfold fold_char.
  destruct (N.eqb_spec c 0x623) as [->|]; [reflexivity|].
  destruct (N.eqb_spec c 0x625) as [->|]; [reflexivity|].
  destruct (N.eqb_spec c 0x622) as [->|]; [reflexivity|].
  destruct (N.eqb_spec c 0x629) as [->|]; [reflexivity|].
  repeat match goal with
         | H : c ≠ ?k |- context [c =? ?k] =>
             destruct (N.eqb_spec c k); [contradiction|]
         end.
  reflexivity.
Qed.

Lemma fold_char_cases (c : codepoint) :
  fold_char c = c ∨ fold_char c = 0x627 ∨ fold_char c = 0x647.
Proof.
  unfold fold_char.
  repeat match goal with
         | |- context [c =? ?k] => destruct (c =? k); auto
         end.
Qed.

Section NormalizerFacts.
Context {U : UnicodeData}.

Lemma ordered_tail c l : ordered (c :: l) = true → ordered l = true.
Proof. destruct l; simpl; [done|]. intros [_ H]%andb_true_iff; exact H. Qed.

Lemma reorderable_chain c d e :
  reorderable c d = true → reorderable c e = false → reorderable d e = false.
Proof.
  unfold reorderable. rewrite andb_true_iff, !andb_false_iff.
  rewrite !N.ltb_lt, !N.ltb_ge. lia.
Qed.

Lemma reorderable_back c d : reorderable c d = true → reorderable d c = false.
Proof.
  unfold reorderable. rewrite andb_true_iff, !andb_false_iff.
  rewrite !N.ltb_lt, !N.ltb_ge. lia.
Qed.

(** Inserting into a canonically ordered text keeps it ordered. *)
Lemma reorder_insert_ordered c l :
  ordered l = true → ordered (reorder_insert c l) = true.
Proof.
  induction l as [|d l IH]; [done|].
  intros Hd. cbn [reorder_insert].
  destruct (reorderable c d) eqn:Hcd.
  - specialize (IH (ordered_tail _ _ Hd)).
    destruct l as [|e l].
    + simpl. by rewrite (reorderable_back _ _ Hcd).
    + cbn [reorder_insert] in *.
      cbn [ordered] in Hd. apply andb_true_iff in Hd as [Hde He].
      destruct (reorderable c e) eqn:Hce.
      * change (negb (reorderable d e) && ordered (e :: reorder_insert c l) = true).
        by rewrite Hde.
      * change (negb (reorderable d c) && ordered (c :: e :: l) = true).
        by rewrite (reorderable_back _ _ Hcd).
  - change (negb (reorderable c d) && ordered (d :: l) = true).
    by rewrite Hcd, Hd.
Qed.

Lemma canonical_order_ordered l : ordered (canonical_order l) = true.
Proof.
  induction l as [|c l IH]; [done|].
  simpl. apply reorder_insert_ordered, IH.
Qed.

Lemma canonical_order_fixed l : ordered l = true → canonical_order l = l.
Proof.
  induction l as [|c l IH]; [done|].
  intros H. simpl. rewrite IH by (eapply ordered_tail; exact H).
  destruct l as [|d l]; [done|].
  cbn [ordered] in H. apply andb_true_iff in H as [Hcd _].
  apply negb_true_iff in Hcd.
  cbn [reorder_insert]. by rewrite Hcd.
Qed.

Lemma reorder_insert_perm c l : reorder_insert c l ≡ₚ c :: l.
Proof.
  induction l as [|d l IH]; [done|].
  cbn [reorder_insert]. case_match; [|done].
  rewrite IH. apply Permutation_swap.
Qed.

Lemma canonical_order_perm l : canonical_order l ≡ₚ l.
Proof.
  induction l as [|c l IH]; [done|].
  simpl. by rewrite reorder_insert_perm, IH.
Qed.

(** A substitution that keeps every combining class commutes with the
    ordering. *)
Lemma reorder_insert_fmap (f : codepoint → codepoint) c l :
  (∀ x, combining (f x) = combining x) →
  reorder_insert (f c) (f <$> l) = f <$> reorder_insert c l.
Proof.
  intros Hf. induction l as [|d l IH]; [done|].
  cbn [fmap list_fmap reorder_insert]. unfold reorderable. rewrite !Hf.
  case_match; cbn [fmap list_fmap]; [|done].
  f_equal. exact IH.
Qed.

Lemma canonical_order_fmap (f : codepoint → codepoint) l :
  (∀ x, combining (f x) = combining x) →
  canonical_order (f <$> l) = f <$> canonical_order l.
Proof.
  intros Hf. induction l as [|c l IH]; [done|].
  cbn [fmap list_fmap canonical_order foldr].
  change (foldr reorder_insert [] (f <$> l)) with (canonical_order (f <$> l)).
  rewrite IH. apply reorder_insert_fmap, Hf.
Qed.

(** A text of code points that are their own decomposition decomposes to
    itself. *)
Lemma bind_decomposition_fixed (l : text) :
  (∀ c, c ∈ l → full_decomposition c = [c]) → l ≫= full_decomposition = l.
Proof.
  induction l as [|c l IH]; [done|].
  intros H. cbn [mbind list_bind].
  rewrite (H c) by left. simpl. f_equal.
  apply IH. intros d Hd. apply H. by right.
Qed.

Lemma normalize_arabic_unfold (s : text) :
  normalize_arabic s = fold_char <$> nfkd s.
Proof. apply replacements_fold_char. Qed.

(** The normalizer's output is a fixed point of [nfkd]. *)
Lemma nfkd_normalized `{!UnicodeLaws} (s : text) :
  nfkd (fold_char <$> nfkd s) = fold_char <$> nfkd s.
Proof.
  unfold nfkd at 1. rewrite bind_decomposition_fixed.
  - rewrite canonical_order_fmap by apply fold_char_combining.
    f_equal. apply canonical_order_fixed, canonical_order_ordered.
  - intros c [d [-> Hd]]%list_elem_of_fmap.
    destruct (fold_char_cases d) as [->|[->| ->]];
      [|apply alef_plain|apply heh_plain].
    unfold nfkd in Hd. rewrite canonical_order_perm in Hd.
    apply list_elem_of_bind in Hd as [e [Hd _]].
    eapply decomposition_full, Hd.
Qed.

(** C6: the normalizer is idempotent: for every string [s],
    [normalize_arabic (normalize_arabic s)] equals [normalize_arabic s],
    over any character database whose full decompositions are fully
    decomposed and in which the folded letters are plain starters. *)
Theorem normalize_arabic_idempotent `{!UnicodeLaws} (s : text) :
  normalize_arabic (normalize_arabic s) = normalize_arabic s.
Proof.
  rewrite !normalize_arabic_unfold, nfkd_normalized.
  rewrite <- list_fmap_compose.
  apply list_fmap_ext. intros _ c _. apply fold_char_idem.
Qed.

End NormalizerFacts.

Lemma arabic_block_laws : @UnicodeLaws arabic_block.
Proof.
  split.
  - intros c d. cbn [full_decomposition arabic_block].
    unfold arabic_decomposition at 1.
    repeat match goal with
           | |- context [c =? ?k] => destruct (N.eqb_spec c k) as [->|?]
           end;
      try (intros [->|[->|[]%elem_of_nil]%elem_of_cons]%elem_of_cons;
           reflexivity).
    intros [->|[]%elem_of_nil]%elem_of_cons.
    unfold arabic_decomposition.
    repeat match goal with
           | H : c ≠ ?k |- context [c =? ?k] =>
               destruct (N.eqb_spec c k); [contradiction|]
           end.
    reflexivity.
  - reflexivity.
  - reflexivity.
  - intros c. cbn [combining arabic_block]. unfold fold_char.
    repeat match goal with
           | |- context [c =? ?k] => destruct (N.eqb_spec c k) as [->|?]
           end; reflexivity.
Qed.

(** Witness of C6 on the Arabic block, at "تفاحة". *)
Lemma normalize_arabic_idempotent_witness :
  @UnicodeLaws arabic_block
  ∧ @normalize_arabic arabic_block
      (@normalize_arabic arabic_block [0x62a; 0x641; 0x627; 0x62d; 0x629])
    = @normalize_arabic arabic_block [0x62a; 0x641; 0x627; 0x62d; 0x629].
Proof.
  split; [exact arabic_block_laws|].
  apply (@normalize_arabic_idempotent arabic_block arabic_block_laws).
Defined.

(** C5: on "أحمر" (U+0623 U+062D U+0645 U+0631) the normalizer does not
    reach the folding its docstring announces: NFKD has already split
    U+0623 into alef and a combining hamza, [replace] finds no U+0623, and
    the result differs from that of "احمر".  The teh marbuta pair
    "تفاحة" / "تفاحه" does fold. *)
Theorem normalize_arabic_hamza_survives :
  @normalize_arabic arabic_block [0x623; 0x62d; 0x645; 0x631]
    = [0x627; 0x654; 0x62d; 0x645; 0x631]
  ∧ @normalize_arabic arabic_block [0x627; 0x62d; 0x645; 0x631]
    = [0x627; 0x62d; 0x645; 0x631]
  ∧ @normalize_arabic arabic_block [0x623; 0x62d; 0x645; 0x631]
    ≠ @normalize_arabic arabic_block [0x627; 0x62d; 0x645; 0x631]
  ∧ @normalize_arabic arabic_block [0x62a; 0x641; 0x627; 0x62d; 0x629]
    = @normalize_arabic arabic_block [0x62a; 0x641; 0x627; 0x62d; 0x647].
Proof. repeat split; try reflexivity. vm_compute. discriminate. Qed.

(** Whatever the character database, a letter it decomposes is gone after
    NFKD, so a replacement keyed on that letter never fires. *)
Lemma nfkd_drops_decomposed `{U : UnicodeData} `{!UnicodeLaws} (c : codepoint) (s : text) :
  full_decomposition c ≠ [c] → c ∉ nfkd s.
Proof.
  intros Hc Hin. unfold nfkd in Hin. rewrite canonical_order_perm in Hin.
  apply list_elem_of_bind in Hin as [e [Hin _]].
  apply Hc. eapply decomposition_full, Hin.
Qed.

(** ** 4.2 The query planner *)





Lemma filter_andb {A : Type} (f g : A → bool) (l : list A) :
  List.filter (λ x, f x && g x) l = List.filter g (List.filter f l).
Proof.
  induction l as [|a l IH]; [done|]. simpl.
  destruct (f a); simpl; [|exact IH]. destruct (g a); by rewrite IH.
Qed.

Lemma filter_true {A : Type} (l : list A) : List.filter (λ _, true) l = l.
Proof. induction l as [|a l IH]; [done|]. simpl. by rewrite IH. Qed.


Lemma filter_fmap_comm {A B : Type} (f : A → B) (t : B → bool) (l : list A) :
  List.filter t (f <$> l) = f <$> List.filter (λ a, t (f a)) l.
Proof.
  induction l as [|a l IH]; [done|].
  cbn [fmap list_fmap List.filter].
  destruct (t (f a)); cbn [fmap list_fmap]; [f_equal|]; exact IH.
Qed.

Section PlannerFacts.
Context {U : UnicodeData} {E : Externals}.


Lemma order_by_perm (le : Row → Row → bool) (rows : list Row) :
  order_by le rows ≡ₚ rows.
Proof. apply merge_sort_Permutation. Qed.









(** The category and calorie filters act as one filter ahead of the
    matching, and an error they raise is the planner's. *)
Lemma search_queryset_candidates (objects : list Product) (query : text)
    (category calories_min calories_max : option text) :
  (_search_queryset objects query category calories_min calories_max).1
  = match candidates category calories_min calories_max objects with
    | Ok cands => (_search_queryset cands query None None None).1
    | Raise e => Raise e
    end.
Proof.
  unfold _search_queryset, candidates, candidate, category_filter,
    calorie_bound.
  destruct category as [c|]; cbn [opt_truthy fmap option_fmap option_map];
    [destruct (str_truthy c) eqn:Hc;
       [destruct (str_truthy (normalize_arabic c)) eqn:Hc'|]|];
    (destruct calories_min as [v|];
       [destruct (str_truthy v);
          [destruct (float v) as [f|];
             [destruct (calories__gte_prep f) as [[]|]|]|]|]);
    cbn [fst]; try reflexivity;
    (destruct calories_max as [v'|];
       [destruct (str_truthy v');
          [destruct (float v') as [f'|];
             [destruct (calories__lte_prep f') as [[]|]|]|]|]);
    cbn [fst andb]; rewrite ?Hc, ?Hc';
    rewrite ?filter_andb, ?filter_true; reflexivity.
Qed.

(** What the planner logs. *)
Lemma search_queryset_log (objects : list Product) (query : text)
    (category calories_min calories_max : option text) :
  (_search_queryset objects query category calories_min calories_max).2
  = planner_log calories_min calories_max.
Proof.
  unfold _search_queryset, planner_log, bound_warning, calorie_bound.
  destruct calories_min as [v|];
    [destruct (str_truthy v);
       [destruct (float v) as [f|];
          [destruct (calories__gte_prep f) as [[]|]|]|]|];
    cbn [snd app]; try reflexivity;
    (destruct calories_max as [v'|];
       [destruct (str_truthy v');
          [destruct (float v') as [f'|];
             [destruct (calories__lte_prep f') as [[]|]|]|]|]);
    cbn [snd app]; reflexivity.
Qed.

Lemma long_mode_rows (objects : list Product) (query : text) :
  (2 < length (normalize_arabic query))%nat →
  (_search_queryset objects query None None None).1
  = Ok (order_by (lex_leb by_exact_desc (lex_leb by_rank_desc by_name_asc))
      (List.filter
         (λ r, match rank r with
               | Some k => fgtb k (float_lit 0.2)
               | None => false
               end)
         ((λ p, {| product := p;
                   rank := Some (weighted_rank (normalize_arabic query) p);
                   is_exact_name_match :=
                     icontains (name p) (normalize_arabic query) |})
          <$> objects))).
Proof.
  intros Hlen. unfold _search_queryset. cbn [opt_truthy fst].
  destruct (Nat.leb_spec (length (normalize_arabic query)) 2); [lia|].
  reflexivity.
Qed.

Lemma short_mode_rows (objects : list Product) (query : text) :
  (length (normalize_arabic query) ≤ 2)%nat →
  (_search_queryset objects query None None None).1
  = Ok (order_by (lex_leb by_exact_desc by_name_asc)
      ((λ p, {| product := p;
                rank := None;
                is_exact_name_match :=
                  icontains (name p) (normalize_arabic query) |})
       <$> List.filter
             (λ p, icontains (name p) (normalize_arabic query)
                   || icontains (brand p) (normalize_arabic query)
                   || icontains (description p) (normalize_arabic query)
                   || icontains (category__name p) (normalize_arabic query))
             objects)).
Proof.
  intros Hlen. unfold _search_queryset. cbn [opt_truthy fst].
  destruct (Nat.leb_spec (length (normalize_arabic query)) 2); [|lia].
  reflexivity.
Qed.

(** Without calorie bounds the planner returns rows. *)
Lemma search_queryset_unbounded (objects : list Product) (query : text)
    (category : option text) :
  ∃ result, (_search_queryset objects query category None None).1 = Ok result.
Proof.
  unfold _search_queryset. cbn [fst]. eexists. reflexivity.
Qed.




(** C10 (as amended): a calorie bound that [float()] rejects is dropped.
    The outcome of the search, its rows or the error the other bound
    raises, is that of the same search with the rejected bound omitted,
    the other filters still applying; in particular the search returns
    when the other bound is absent.  A warning is logged when the rejected
    value is a non-empty string and the search gets to the bound; an empty
    value is skipped without a warning. *)
Theorem unparsable_bound_dropped (objects : list Product) (query v : text)
    (category other : option text) :
  float v = None →
  (_search_queryset objects query category (Some v) other).1
  = (_search_queryset objects query category None other).1
  ∧ (_search_queryset objects query category (Some v) other).2
    = (if str_truthy v
       then [(WARNING, cp "Invalid calories_min value: " ++ v)] else [])
      ++ (_search_queryset objects query category None other).2
  ∧ (_search_queryset objects query category other (Some v)).1
    = (_search_queryset objects query category other None).1
  ∧ (_search_queryset objects query category other (Some v)).2
    = (_search_queryset objects query category other None).2
      ++ match (_search_queryset objects query category other None).1 with
         | Ok _ =>
             if str_truthy v
             then [(WARNING, cp "Invalid calories_max value: " ++ v)] else []
         | Raise _ => []
         end
  ∧ (∃ result,
       (_search_queryset objects query category (Some v) None).1 = Ok result)
  ∧ (∃ result,
       (_search_queryset objects query category None (Some v)).1 = Ok result).
Proof.
  intros Hf.
  split; [|split; [|split; [|split; [|split]]]].
  - unfold _search_queryset.
    destruct (str_truthy v); rewrite ?Hf;
      (destruct other as [o|];
         [destruct (str_truthy o);
            [destruct (float o) as [f|];
               [destruct (calories__lte_prep f) as [[]|]|]|]|]);
      cbn [fst snd app]; reflexivity.
  - unfold _search_queryset.
    destruct (str_truthy v); rewrite ?Hf;
      (destruct other as [o|];
         [destruct (str_truthy o);
            [destruct (float o) as [f|];
               [destruct (calories__lte_prep f) as [[]|]|]|]|]);
      cbn [fst snd app]; reflexivity.
  - unfold _search_queryset.
    destruct (str_truthy v); rewrite ?Hf;
      (destruct other as [o|];
         [destruct (str_truthy o);
            [destruct (float o) as [f|];
               [destruct (calories__gte_prep f) as [[]|]|]|]|]);
      cbn [fst snd app]; reflexivity.
  - unfold _search_queryset.
    destruct (str_truthy v); rewrite ?Hf;
      (destruct other as [o|];
         [destruct (str_truthy o);
            [destruct (float o) as [f|];
               [destruct (calories__gte_prep f) as [[]|]|]|]|]);
      cbn [fst snd app]; rewrite ?app_nil_r; reflexivity.
  - unfold _search_queryset.
    destruct (str_truthy v); rewrite ?Hf; cbn [fst]; eexists; reflexivity.
  - unfold _search_queryset.
    destruct (str_truthy v); rewrite ?Hf; cbn [fst]; eexists; reflexivity.
Qed.

End PlannerFacts.

(** *** The concrete instance satisfies the laws *)




(** *** The planner on a shelf of five products *)

Example shelf_long_mode :
  match (@_search_queryset arabic_block exact_store shelf (cp "Apple")
           None None None).1 with
  | Ok result =>
      Some ((λ r, (pk (product r), is_exact_name_match r)) <$> result)
  | Raise _ => None
  end
  = Some [(2, true); (1, true); (3, false); (4, false); (5, false)]%Z.
Proof. vm_compute. reflexivity. Qed.

Example shelf_filters :
  match (@_search_queryset arabic_block exact_store shelf (cp "apple")
           (Some (cp "fru")) (Some (cp "50")) (Some (cp "100"))).1 with
  | Ok result => Some ((λ r, pk (product r)) <$> result)
  | Raise _ => None
  end
  = Some [1; 3; 4]%Z.
Proof. vm_compute. reflexivity. Qed.

Example shelf_short_mode :
  match (@_search_queryset arabic_block exact_store shelf (cp "ab")
           None None None).1 with
  | Ok result =>
      Some ((λ r, (pk (product r), rank r, is_exact_name_match r)) <$> result)
  | Raise _ => None
  end
  = Some [(4%Z, None, true); (5%Z, None, false)].
Proof. vm_compute. reflexivity. Qed.

Example shelf_invalid_bound :
  @_search_queryset arabic_block exact_store shelf (cp "ab")
    None (Some (cp "invalid")) None
  = ((@_search_queryset arabic_block exact_store shelf (cp "ab")
        None None None).1,
     [(WARNING, cp "Invalid calories_min value: invalid")]).
Proof. vm_compute. reflexivity. Qed.

(** *** The planner over double-precision bounds *)

(** [calories_min=nan]: [float] takes it, the lookup refuses it with
    [ValueError], the handler logs and the bound is dropped. *)
Example larder_nan_bound :
  @_search_queryset arabic_block double_store larder (cp "Apple")
    None (Some (cp "nan")) None
  = ((@_search_queryset arabic_block double_store larder (cp "Apple")
        None None None).1,
     [(WARNING, cp "Invalid calories_min value: nan")]).
Proof. vm_compute. reflexivity. Qed.

(** [calories_min=inf]: the lookup raises [OverflowError], which the
    handler does not catch. *)
Example larder_infinite_bound :
  @_search_queryset arabic_block double_store larder (cp "Apple")
    None (Some (cp "inf")) None
  = (Raise OverflowError, []).
Proof. vm_compute. reflexivity. Qed.

(** [calories_min=abc&calories_max=inf]: the lower bound is dropped with
    its warning, then the upper bound fails the search. *)
Example larder_rejected_beside_infinite :
  @_search_queryset arabic_block double_store larder (cp "Apple")
    None (Some (cp "abc")) (Some (cp "inf"))
  = (Raise OverflowError, [(WARNING, cp "Invalid calories_min value: abc")]).
Proof. vm_compute. reflexivity. Qed.




(** Witness of C10 (as amended): [calories_min=invalid]. *)
Lemma unparsable_bound_dropped_witness :
  @float exact_store (cp "invalid") = None
  ∧ (@_search_queryset arabic_block exact_store shelf (cp "ab")
       None (Some (cp "invalid")) None).1
    = (@_search_queryset arabic_block exact_store shelf (cp "ab")
         None None None).1.
Proof.
  split; [reflexivity|].
  apply (@unparsable_bound_dropped arabic_block exact_store shelf (cp "ab")
           (cp "invalid") None None).
  reflexivity.
Defined.

(** C10, the counterexample: [calories_min=] is present, [float('')]
    rejects it, the bound is dropped, and nothing is logged. *)
Lemma empty_bound_logs_nothing :
  @float exact_store [] = None
  ∧ @_search_queryset arabic_block exact_store shelf (cp "ab")
      None (Some []) None
    = ((@_search_queryset arabic_block exact_store shelf (cp "ab")
          None None None).1, []).
Proof. split; [reflexivity|]. vm_compute. reflexivity. Qed.

(** ** 6. The search endpoint *)

Section EndpointFacts.
Context {U : UnicodeData} {E : Externals} {F : Framework}.

(** C7: when [q], once trimmed, is empty (it is absent, empty or made of
    whitespace only), [search] answers exactly
    [{count: 0, next: null, previous: null, results: []}] and its trace is
    empty: the planner is not invoked and the catalog is not read. *)
Theorem search_empty_query (objects : list Product)
    (query_params : gmap text text) :
  strip (default [] (query_params !! cp "q")) = [] →
  search objects query_params = (Ok (Response_page 0 None None []), []).
Proof. intros H. unfold search. by rewrite H. Qed.

End EndpointFacts.

(** Witness of C7: [q] is two spaces. *)
Lemma search_empty_query_witness :
  strip (default [] (({[ cp "q" := cp "  " ]} : gmap text text) !! cp "q")) = []
  ∧ @search arabic_block exact_store plain_framework shelf
      {[ cp "q" := cp "  " ]}
    = (Ok (Response_page 0 None None []), []).
Proof.
  split; [vm_compute; reflexivity|].
  apply (@search_empty_query arabic_block exact_store plain_framework).
  vm_compute; reflexivity.
Defined.

Example search_blank_inputs :
  strip [] = [] ∧ strip [0x20; 0x9; 0xa0; 0x3000] = []
  ∧ strip (cp "  ab ") = cp "ab".
Proof. repeat split. Qed.

Example search_planned :
  match @search arabic_block exact_store plain_framework shelf
          {[ cp "q" := cp " ab " ]} with
  | (Ok (Response_page count _ _ results), trace) =>
      Some (count, results, trace)
  | _ => None
  end
  = Some (2, [cp "ab"; cp "Soda"],
          [Planned (cp "ab") None None None; Evaluated]).
Proof. vm_compute. reflexivity. Qed.

(** ** 4.3 The cache layer *)

Lemma glob_star_all (s : text) : glob_match [42] s = true.
Proof.
  induction s as [|c s IH]; [done|].
  change (glob_match [] (c :: s) || glob_match [42] s = true).
  by rewrite IH, orb_true_r.
Qed.

(** A literal followed by [*] matches what starts with the literal. *)
Lemma glob_literal_star (lit s : text) :
  Forall (λ c, c ≠ 42 ∧ c ≠ 63) lit →
  glob_match (lit ++ [42]) s = true ↔ ∃ rest, s = lit ++ rest.
Proof.
  intros Hlit. revert s. induction Hlit as [|c lit [H42 H63] _ IH]; intros s.
  - split; [eauto|]. intros _. apply glob_star_all.
  - cbn [app glob_match].
    destruct (N.eqb_spec c 42); [done|].
    destruct (N.eqb_spec c 63); [done|].
    destruct s as [|d s].
    + split; [done|]. intros [rest H]. discriminate.
    + rewrite andb_true_iff, N.eqb_eq, IH. split.
      * intros [-> [rest ->]]. eauto.
      * intros [rest H]. injection H as -> ->. eauto.
Qed.

Lemma products_all_pattern (s : text) :
  glob_match (cp "products:all:*") s = true
  ↔ ∃ rest, s = cp "products:all:" ++ rest.
Proof.
  apply (glob_literal_star (cp "products:all:")).
  repeat constructor; done.
Qed.

(** [search_keys] is no key of the product views, whatever the prefix. *)
Lemma registry_key_apart (pre rest : text) :
  cp "search_keys" ≠ pre ++ cp "products:" ++ rest.
Proof.
  intros H.
  assert (is_infix (cp "products:") (cp "search_keys") = true) as Hin
    by (apply is_infix_spec; eauto).
  vm_compute in Hin. discriminate.
Qed.

Lemma lookup_foldr_delete_elem {A : Type} (m : gmap text A) (ks : list text)
    (k : text) :
  k ∈ ks → foldr delete m ks !! k = None.
Proof.
  induction ks as [|k' ks IH]; [by intros ?%elem_of_nil|].
  intros [->|Hin]%elem_of_cons; simpl.
  - apply lookup_delete_eq.
  - apply lookup_delete_None. right. by apply IH.
Qed.

Lemma lookup_foldr_delete_None {A : Type} (m : gmap text A) (ks : list text)
    (k : text) :
  m !! k = None → foldr delete m ks !! k = None.
Proof.
  intros H. induction ks as [|k' ks IH]; [done|]. simpl.
  apply lookup_delete_None. by right.
Qed.

Section CacheFacts.
Context {V : Views}.

(** The sweep pattern covers every list-page key. *)
Lemma swept_list_key (page_number : text) :
  swept (cp "products:all:*") (make_key (list_cache_key page_number)) = true.
Proof.
  unfold swept, make_key, list_cache_key. apply andb_true_iff; split.
  - apply is_prefix_spec; eauto.
  - rewrite drop_app_length. apply products_all_pattern.
    exists (cp "page:" ++ page_number). reflexivity.
Qed.

Lemma swept_registry_key : swept (cp "products:all:*") registry_key = false.
Proof.
  apply not_true_is_false. unfold swept.
  rewrite andb_true_iff, is_prefix_spec, products_all_pattern.
  intros [[rest Hrest] [rest' Hdrop]].
  rewrite Hrest, drop_app_length in Hdrop. subst rest.
  exact (registry_key_apart key_prefix (cp "all:" ++ rest') Hrest).
Qed.

Lemma registry_not_product_key (x : text) :
  registry_key ≠ make_key (cp "products:" ++ x).
Proof. apply registry_key_apart. Qed.

(** The cache after the pattern sweep and the detail delete. *)
Lemma sweep_lookups (product_id : Z) (m : gmap text entry) :
  let m2 := delete (make_key (cp "products:" ++ str_of_id product_id))
              (filter (λ kv, swept (cp "products:all:*") kv.1 = false) m) in
  (∀ page_number, m2 !! make_key (list_cache_key page_number) = None)
  ∧ m2 !! make_key (detail_cache_key (str_of_id product_id)) = None
  ∧ m2 !! registry_key = m !! registry_key
  ∧ (∀ k, m !! k = None → m2 !! k = None).
Proof.
  intros m2. subst m2. repeat split.
  - intros page_number. apply lookup_delete_None. right.
    apply map_lookup_filter_None_2. right. intros x _. simpl.
    by rewrite swept_list_key.
  - apply lookup_delete_eq.
  - rewrite lookup_delete_ne
      by (intros H; symmetry in H; exact (registry_not_product_key _ H)).
    destruct (m !! registry_key) as [x|] eqn:Hx.
    + apply map_lookup_filter_Some_2; [done|]. apply swept_registry_key.
    + apply map_lookup_filter_None_2. by left.
  - intros k Hk. apply lookup_delete_None. right.
    apply map_lookup_filter_None_2. by left.
Qed.

Lemma registered_lookup (m m' : gmap text entry) :
  m' !! registry_key = m !! registry_key → registered m' = registered m.
Proof. unfold registered. by intros ->. Qed.

Lemma registry_ok_lookup (m m' : gmap text entry) :
  m' !! registry_key = m !! registry_key → registry_ok m → registry_ok m'.
Proof. unfold registry_ok. by intros ->. Qed.

(** With the cache reachable and the registry a set, the search sweep
    succeeds and removes the registered keys and the registry. *)
Lemma invalidate_all_search_cache_up (w : world) (m : gmap text entry) :
  redis w = Some m → registry_ok m →
  ∃ m' lg,
    invalidate_all_search_cache w
    = (Ok (), {| catalog := catalog w; redis := Some m'; log := lg |})
    ∧ (∀ k, k ∈ registered m → m' !! k = None)
    ∧ registered m' = ∅
    ∧ (registered m ≠ ∅ → m' !! registry_key = None)
    ∧ (∀ k, m !! k = None → m' !! k = None).
Proof.
  intros Hm Hok. unfold invalidate_all_search_cache, bind, redis_smembers.
  rewrite Hm. unfold registry_ok, registered in *.
  change (cp "search_keys") with registry_key.
  destruct (m !! registry_key) as [[v t|s]|] eqn:Hreg; [done| |].
  - destruct (decide (s = ∅)) as [->|Hs].
    + exists m, (log w). unfold ret. destruct w; simpl in *; subst.
      rewrite Hreg. repeat split; try done; set_solver.
    + exists (foldr delete m (elements s ++ [registry_key])),
             (log w ++ [(DEBUG, cp "[CACHE CLEARED] search:*")]).
      unfold redis_delete. rewrite Hm. simpl.
      assert (foldr delete m (elements s ++ [registry_key]) !! registry_key
              = None) as Hgone
        by (apply lookup_foldr_delete_elem; set_solver).
      rewrite Hgone. repeat split; try done.
      * intros k Hk. apply lookup_foldr_delete_elem. set_solver.
      * intros k Hk. by apply lookup_foldr_delete_None.
  - exists m, (log w). rewrite decide_True by done.
    unfold ret. destruct w; simpl in *; subst.
    rewrite Hreg. repeat split; try done; set_solver.
Qed.

(** With the cache reachable and the registry a set, invalidation
    succeeds, leaves the catalog alone and clears what it names. *)
Lemma invalidate_product_cache_up (product_id : Z) (w : world)
    (m : gmap text entry) :
  redis w = Some m → registry_ok m →
  ∃ m' lg,
    invalidate_product_cache product_id w
    = (Ok (), {| catalog := catalog w; redis := Some m'; log := lg |})
    ∧ invalidated product_id m m'.
Proof.
  intros Hm Hok.
  destruct (sweep_lookups product_id m) as [Hlist [Hdetail [Hreg Hnone]]].
  set (m2 := delete (make_key (cp "products:" ++ str_of_id product_id))
               (filter (λ kv, swept (cp "products:all:*") kv.1 = false) m))
    in *.
  set (w2 := {| catalog := catalog w; redis := Some m2; log := log w |}).
  destruct (invalidate_all_search_cache_up w2 m2 eq_refl
              (registry_ok_lookup _ _ Hreg Hok))
    as [m' [lg [Hrun [Hkeys [Hempty [Hregistry Hmono]]]]]].
  exists m', lg. split.
  - unfold invalidate_product_cache, bind, cache_delete_pattern, cache_delete.
    rewrite Hm. simpl. exact Hrun.
  - rewrite (registered_lookup _ _ Hreg) in Hkeys, Hregistry.
    repeat split; auto.
Qed.

(** *** Reads *)

Lemma list_products_miss (w : world) (m : gmap text entry)
    (query_params : gmap text text) :
  redis w = Some m →
  m !! make_key (list_cache_key (default (cp "1") (query_params !! cp "page")))
  = None →
  list_products query_params w
  = match super_list query_params (catalog w) with
    | Ok d =>
        (Ok d,
         set_redis
           (<[make_key
                (list_cache_key (default (cp "1") (query_params !! cp "page")))
              := EString d 600]> m) w)
    | Raise e => (Raise e, w)
    end.
Proof.
  intros Hm Hmiss. unfold list_products, bind, cache_get.
  fold (list_cache_key (default (cp "1") (query_params !! cp "page"))).
  rewrite Hm, Hmiss. unfold read_catalog, cache_set.
  destruct (super_list query_params (catalog w)); [|done].
  by rewrite Hm.
Qed.

Lemma list_products_hit (w : world) (m : gmap text entry)
    (query_params : gmap text text) (d : Data) (t : N) :
  redis w = Some m →
  m !! make_key (list_cache_key (default (cp "1") (query_params !! cp "page")))
  = Some (EString d t) →
  data_truthy d = true →
  list_products query_params w
  = (Ok d,
     {| catalog := catalog w; redis := redis w;
        log := log w
               ++ [(DEBUG,
                    cp "[CACHE HIT] "
                    ++ list_cache_key
                         (default (cp "1") (query_params !! cp "page")))] |}).
Proof.
  intros Hm Hhit Hd. unfold list_products, bind, cache_get, logger_debug, ret.
  fold (list_cache_key (default (cp "1") (query_params !! cp "page"))).
  rewrite Hm, Hhit, Hd. by rewrite Hm.
Qed.

Lemma retrieve_miss (w : world) (m : gmap text entry) (product_id : text) :
  redis w = Some m →
  m !! make_key (detail_cache_key product_id) = None →
  retrieve product_id w
  = match super_retrieve product_id (catalog w) with
    | Ok d =>
        (Ok d,
         set_redis
           (<[make_key (detail_cache_key product_id) := EString d 600]> m) w)
    | Raise e => (Raise e, w)
    end.
Proof.
  intros Hm Hmiss. unfold retrieve, bind, cache_get.
  fold (detail_cache_key product_id).
  rewrite Hm, Hmiss. unfold read_catalog, cache_set.
  destruct (super_retrieve product_id (catalog w)); [|done].
  by rewrite Hm.
Qed.

Lemma retrieve_hit (w : world) (m : gmap text entry) (product_id : text)
    (d : Data) (t : N) :
  redis w = Some m →
  m !! make_key (detail_cache_key product_id) = Some (EString d t) →
  data_truthy d = true →
  retrieve product_id w
  = (Ok d,
     {| catalog := catalog w; redis := redis w;
        log := log w
               ++ [(DEBUG, cp "[CACHE HIT] " ++ detail_cache_key product_id)] |}).
Proof.
  intros Hm Hhit Hd. unfold retrieve, bind, cache_get, logger_debug, ret.
  fold (detail_cache_key product_id).
  rewrite Hm, Hhit, Hd. by rewrite Hm.
Qed.

(** After an invalidation the list pages and the written product's detail
    are computed from the catalog. *)
Lemma reads_after_invalidation (product_id : Z) (m m' : gmap text entry)
    (c : Catalog) (lg : list (level * text)) :
  invalidated product_id m m' →
  (∀ query_params,
     (list_products query_params
        {| catalog := c; redis := Some m'; log := lg |}).1
     = super_list query_params c)
  ∧ (retrieve (str_of_id product_id)
       {| catalog := c; redis := Some m'; log := lg |}).1
    = super_retrieve (str_of_id product_id) c.
Proof.
  intros [Hlist [Hdetail _]]. split.
  - intros query_params.
    rewrite (list_products_miss _ m') by (done || apply Hlist).
    simpl. by destruct (super_list query_params c).
  - rewrite (retrieve_miss _ m') by done.
    simpl. by destruct (super_retrieve _ c).
Qed.

(** C9 (as amended): the views do not handle an unreachable cache.  A
    list or detail read raises redis-py's [ConnectionError], unless the
    backend is set to ignore exceptions, in which case the read is
    answered from the catalog.  Every write is applied to the catalog and
    then raises [ConnectionError] from the invalidation, whatever that
    setting: from the cache API, or with exceptions ignored from the raw
    registry lookup.  The views log nothing on these paths. *)
Theorem cache_down_propagates (w : world) :
  redis w = None →
  (∀ query_params,
     list_products query_params w
     = if ignore_exceptions
       then (super_list query_params (catalog w), w)
       else (Raise ConnectionError, w))
  ∧ (∀ product_id,
       retrieve product_id w
       = if ignore_exceptions
         then (super_retrieve product_id (catalog w), w)
         else (Raise ConnectionError, w))
  ∧ (∀ serializer product_id c',
       serializer_save serializer (catalog w) = Ok (product_id, c') →
       perform_create serializer w = (Raise ConnectionError, set_catalog c' w)
       ∧ perform_update serializer w
         = (Raise ConnectionError, set_catalog c' w))
  ∧ (∀ product_id c',
       instance_delete product_id (catalog w) = Ok c' →
       perform_destroy product_id w = (Raise ConnectionError, set_catalog c' w)).
Proof.
  intros Hdown. split; [|split; [|split]].
  - intros query_params.
    unfold list_products, bind, cache_get, cache_set, omit_exception,
      read_catalog, ret, raise.
    rewrite Hdown. destruct ignore_exceptions; [|done].
    destruct (super_list query_params (catalog w)); [|done].
    by rewrite Hdown.
  - intros product_id.
    unfold retrieve, bind, cache_get, cache_set, omit_exception,
      read_catalog, ret, raise.
    rewrite Hdown. destruct ignore_exceptions; [|done].
    destruct (super_retrieve product_id (catalog w)); [|done].
    by rewrite Hdown.
  - intros serializer product_id c' H.
    assert (redis (set_catalog c' w) = None) as Hdown' by exact Hdown.
    unfold perform_create, perform_update, invalidate_product_cache,
      invalidate_all_search_cache, bind, write_catalog, cache_delete_pattern,
      cache_delete, redis_smembers, omit_exception, ret, raise.
    rewrite H.
    destruct ignore_exceptions; repeat (rewrite Hdown'; cbv beta iota); done.
  - intros product_id c' H.
    assert (redis (set_catalog c' w) = None) as Hdown' by exact Hdown.
    unfold perform_destroy, invalidate_product_cache,
      invalidate_all_search_cache, bind, write_catalog, cache_delete_pattern,
      cache_delete, redis_smembers, omit_exception, ret, raise.
    rewrite H.
    destruct ignore_exceptions; repeat (rewrite Hdown'; cbv beta iota); done.
Qed.

End CacheFacts.

(** *** The cache layer on a two-product catalog *)

(** C4, the counterexample: after three reads warm the cache, product 1
    is renamed.  The detail read of product 2 is still answered from the
    entry cached before the write, and so is the read of product 1 under
    the key spelling [01], which now differs from the catalog. *)
Lemma detail_entries_survive_update :
  renamed.1 = Ok ()
  ∧ (@cache_get (row_views false) (cp "products:2") renamed.2).1
    = Ok (Some [(2%Z, cp "Pear")])
  ∧ (@retrieve (row_views false) (cp "2") renamed.2).1
    = Ok [(2%Z, cp "Pear")]
  ∧ (@retrieve (row_views false) (cp "01") renamed.2).1
    = Ok [(1%Z, cp "Apple")]
  ∧ @super_retrieve (row_views false) (cp "01") (catalog renamed.2)
    = Ok [(1%Z, cp "Apricot")].
Proof. vm_compute. repeat split. Qed.

Example renamed_reads_fresh :
  (@retrieve (row_views false) (cp "1") renamed.2).1
  = Ok [(1%Z, cp "Apricot")]
  ∧ (@list_products (row_views false) ∅ renamed.2).1
    = Ok [(1%Z, cp "Apricot"); (2%Z, cp "Pear")].
Proof. vm_compute. repeat split. Qed.

(** C8, the counterexample: after a detail read of product 2 and a list
    read of page 1 the responses sit under [products:2] and
    [products:all:page:1]; nothing is stored under [product:2] or
    [product-list:1]. *)
Lemma spec_key_formats_unused :
  (@cache_get (row_views false) (cp "products:2")
     (@retrieve (row_views false) (cp "2") (pantry false)).2).1
  = Ok (Some [(2%Z, cp "Pear")])
  ∧ (@cache_get (row_views false) (cp "product:2")
       (@retrieve (row_views false) (cp "2") (pantry false)).2).1
    = Ok None
  ∧ (@cache_get (row_views false) (cp "products:all:page:1")
       (@list_products (row_views false) ∅ (pantry false)).2).1
    = Ok (Some [(1%Z, cp "Apple"); (2%Z, cp "Pear")])
  ∧ (@cache_get (row_views false) (cp "product-list:1")
       (@list_products (row_views false) ∅ (pantry false)).2).1
    = Ok None.
Proof. vm_compute. repeat split. Qed.

(** C9, the counterexample: with the cache unreachable a detail read and
    a list read raise [ConnectionError]; a write renames the product in
    the catalog and then raises it, whether or not the backend ignores
    exceptions; the log stays empty. *)
Lemma unreachable_cache_fails_requests :
  @retrieve (row_views false) (cp "1") (pantry_down false)
  = (Raise ConnectionError, pantry_down false)
  ∧ @list_products (row_views false) ∅ (pantry_down false)
    = (Raise ConnectionError, pantry_down false)
  ∧ @perform_update (row_views false) (Some 1%Z, cp "Apricot")
      (pantry_down false)
    = (Raise ConnectionError,
       @Build_world (row_views false)
         [(1%Z, cp "Apricot"); (2%Z, cp "Pear")] None [])
  ∧ @perform_update (row_views true) (Some 1%Z, cp "Apricot")
      (pantry_down true)
    = (Raise ConnectionError,
       @Build_world (row_views true)
         [(1%Z, cp "Apricot"); (2%Z, cp "Pear")] None []).
Proof. vm_compute. repeat split. Qed.

(** Witness of C9 (as amended): a detail read with the cache down. *)
Lemma cache_down_propagates_witness :
  redis (pantry_down false) = None
  ∧ @retrieve (row_views false) (cp "1") (pantry_down false)
    = (Raise ConnectionError, pantry_down false).
Proof.
  split; [reflexivity|].
  exact (proj1 (proj2 (@cache_down_propagates (row_views false)
                         (pantry_down false) eq_refl)) (cp "1")).
Defined.

(** * Further properties *)

(** ** The text normalizer *)

Lemma fold_char_range (c : codepoint) :
  fold_char c ≠ 0x623 ∧ fold_char c ≠ 0x625 ∧ fold_char c ≠ 0x622
  ∧ fold_char c ≠ 0x629.
Proof.
  unfold fold_char.
  destruct (N.eqb_spec c 0x623); [done|].
  destruct (N.eqb_spec c 0x625); [done|].
  destruct (N.eqb_spec c 0x622); [done|].
  destruct (N.eqb_spec c 0x629); done.
Qed.

(** X1: whatever the input and the character database, the normalized
    text holds none of the four letters the replacement table reads:
    U+0623, U+0625, U+0622, U+0629. *)
Theorem normalize_arabic_no_variants `{U : UnicodeData} (s : text) :
  Forall (λ c, c ≠ 0x623 ∧ c ≠ 0x625 ∧ c ≠ 0x622 ∧ c ≠ 0x629)
    (normalize_arabic s).
Proof.
  rewrite normalize_arabic_unfold. apply Forall_fmap, Forall_forall.
  intros c _. apply fold_char_range.
Qed.

(** X2: over a character database that decomposes the three alef
    variants, the first three replacements never fire: the normalizer is
    NFKD followed by the teh marbuta replacement alone. *)
Theorem normalize_arabic_only_teh_marbuta `{U : UnicodeData} `{!UnicodeLaws}
    (s : text) :
  full_decomposition 0x623 ≠ [0x623] →
  full_decomposition 0x625 ≠ [0x625] →
  full_decomposition 0x622 ≠ [0x622] →
  normalize_arabic s = str_replace 0x629 0x647 (nfkd s).
Proof.
  intros H1 H2 H3. rewrite normalize_arabic_unfold. unfold str_replace.
  apply list_fmap_ext. intros i c Hc.
  apply list_elem_of_lookup_2 in Hc. unfold fold_char.
  destruct (N.eqb_spec c 0x623) as [->|];
    [by apply nfkd_drops_decomposed in Hc|].
  destruct (N.eqb_spec c 0x625) as [->|];
    [by apply nfkd_drops_decomposed in Hc|].
  destruct (N.eqb_spec c 0x622) as [->|];
    [by apply nfkd_drops_decomposed in Hc|].
  reflexivity.
Qed.

Lemma normalize_arabic_only_teh_marbuta_witness :
  @UnicodeLaws arabic_block
  ∧ @full_decomposition arabic_block 0x623 ≠ [0x623]
  ∧ @full_decomposition arabic_block 0x625 ≠ [0x625]
  ∧ @full_decomposition arabic_block 0x622 ≠ [0x622]
  ∧ @normalize_arabic arabic_block [0x62a; 0x641; 0x625; 0x62d; 0x629]
    = str_replace 0x629 0x647
        (@nfkd arabic_block [0x62a; 0x641; 0x625; 0x62d; 0x629]).
Proof.
  assert (H1 : @full_decomposition arabic_block 0x623 ≠ [0x623])
    by (vm_compute; discriminate).
  assert (H2 : @full_decomposition arabic_block 0x625 ≠ [0x625])
    by (vm_compute; discriminate).
  assert (H3 : @full_decomposition arabic_block 0x622 ≠ [0x622])
    by (vm_compute; discriminate).
  split; [exact arabic_block_laws|]. repeat (split; [done|]).
  exact (@normalize_arabic_only_teh_marbuta arabic_block arabic_block_laws
           _ H1 H2 H3).
Defined.

(** ** The query planner *)

Lemma normalize_arabic_fixed `{U : UnicodeData} `{!UnicodeLaws} (s : text) :
  normalize_arabic (normalize_arabic s) = normalize_arabic s.
Proof.
  rewrite !normalize_arabic_unfold, nfkd_normalized.
  rewrite <- list_fmap_compose.
  apply list_fmap_ext. intros _ c _. apply fold_char_idem.
Qed.

Lemma normalize_arabic_nil `{U : UnicodeData} : normalize_arabic [] = [].
Proof. reflexivity. Qed.

Lemma filter_Permutation {A : Type} (f : A → bool) (l l' : list A) :
  l ≡ₚ l' → List.filter f l ≡ₚ List.filter f l'.
Proof.
  induction 1 as [|x l l' _ IH|x y l|l l' l'' _ IH1 _ IH2]; simpl.
  - done.
  - destruct (f x); by rewrite IH.
  - destruct (f x), (f y); try done. apply Permutation_swap.
  - by rewrite IH1.
Qed.

Section PlannerMore.
Context {U : UnicodeData} {E : Externals}.

(** The rows before ordering, in either mode, as a function of the
    candidates. *)
Lemma search_rows_perm (query : text) :
  ∃ (keep : Product → bool) (row : Product → Row),
    ∀ objs, ∃ result,
      (_search_queryset objs query None None None).1 = Ok result
      ∧ result ≡ₚ row <$> List.filter keep objs.
Proof.
  destruct (Nat.leb_spec (length (normalize_arabic query)) 2) as [Hlen|Hlen].
  - eexists _, _. intros objs. eexists.
    split; [by apply short_mode_rows|]. apply order_by_perm.
  - exists (λ p, fgtb (weighted_rank (normalize_arabic query) p) (float_lit 0.2)),
           (λ p, {| product := p;
                    rank := Some (weighted_rank (normalize_arabic query) p);
                    is_exact_name_match :=
                      icontains (name p) (normalize_arabic query) |}).
    intros objs. eexists. split; [by apply long_mode_rows|].
    rewrite order_by_perm. by rewrite filter_fmap_comm.
Qed.

Lemma candidates_Permutation (objects objects' : list Product)
    (category calories_min calories_max : option text) :
  objects ≡ₚ objects' →
  match candidates category calories_min calories_max objects,
        candidates category calories_min calories_max objects' with
  | Ok cands, Ok cands' => cands ≡ₚ cands'
  | Raise e, Raise e' => e = e'
  | _, _ => False
  end.
Proof.
  intros Hperm. unfold candidates.
  destruct (calorie_bound calories__gte_prep calories_min);
    destruct (calorie_bound calories__lte_prep calories_max);
    try done; by apply filter_Permutation.
Qed.

Lemma candidates_subseteq (objects : list Product)
    (category calories_min calories_max : option text) (cands : list Product) :
  candidates category calories_min calories_max objects = Ok cands →
  cands ⊆ objects.
Proof.
  unfold candidates.
  destruct (calorie_bound calories__gte_prep calories_min);
    destruct (calorie_bound calories__lte_prep calories_max);
    intros H; try discriminate H; injection H as <-;
    intros p Hp; by apply list_elem_of_In, filter_In in Hp as [Hp%list_elem_of_In _].
Qed.

(** X3: a query and a category that are already normalized give the same
    search: normalizing on the caller's side changes neither the outcome,
    rows or error, nor the log. *)
Theorem search_normalized_inputs `{!UnicodeLaws}
    (objects : list Product) (query : text)
    (category calories_min calories_max : option text) :
  _search_queryset objects (normalize_arabic query)
    (normalize_arabic <$> category) calories_min calories_max
  = _search_queryset objects query category calories_min calories_max.
Proof.
  unfold _search_queryset. rewrite normalize_arabic_fixed.
  destruct category as [c|]; [|reflexivity].
  cbn [fmap option_fmap option_map opt_truthy].
  destruct (str_truthy c) eqn:Hc.
  - rewrite normalize_arabic_fixed.
    destruct (str_truthy (normalize_arabic c)) eqn:Hc';
      cbn [fmap option_fmap option_map];
      rewrite ?normalize_arabic_fixed, ?Hc'; reflexivity.
  - destruct c; [|discriminate]. rewrite normalize_arabic_nil.
    reflexivity.
Qed.

(** X4: the search does not depend on the order in which the catalog
    stores its products: over a permuted catalog the planner logs the
    same, fails with the same error when it fails, and otherwise returns
    a permutation of the rows. *)
Theorem search_catalog_order (objects objects' : list Product) (query : text)
    (category calories_min calories_max : option text) :
  objects ≡ₚ objects' →
  match (_search_queryset objects query category calories_min calories_max).1,
        (_search_queryset objects' query category calories_min calories_max).1
  with
  | Ok result, Ok result' => result ≡ₚ result'
  | Raise e, Raise e' => e = e'
  | _, _ => False
  end
  ∧ (_search_queryset objects query category calories_min calories_max).2
    = (_search_queryset objects' query category calories_min calories_max).2.
Proof.
  intros Hperm. split; [|by rewrite !search_queryset_log].
  rewrite (search_queryset_candidates objects),
    (search_queryset_candidates objects').
  pose proof (candidates_Permutation objects objects' category calories_min
                calories_max Hperm) as Hc.
  destruct (candidates category calories_min calories_max objects)
    as [cands|e],
    (candidates category calories_min calories_max objects')
    as [cands'|e']; try done.
  destruct (search_rows_perm query) as [keep [row Hrows]].
  destruct (Hrows cands) as [result [-> Hp]].
  destruct (Hrows cands') as [result' [-> Hp']].
  rewrite Hp, Hp'.
  by apply fmap_Permutation, filter_Permutation.
Qed.

(** X5: filters only narrow: the search without category and calorie
    filters returns, and every row a filtered search returns is one of
    its rows. *)
Theorem search_filters_narrow (objects : list Product) (query : text)
    (category calories_min calories_max : option text) :
  ∃ unfiltered,
    (_search_queryset objects query None None None).1 = Ok unfiltered
    ∧ ∀ result,
        (_search_queryset objects query category calories_min calories_max).1
        = Ok result →
        result ⊆ unfiltered.
Proof.
  destruct (search_rows_perm query) as [keep [row Hrows]].
  destruct (Hrows objects) as [unfiltered [Hun Hpun]].
  exists unfiltered. split; [exact Hun|].
  intros result. rewrite search_queryset_candidates.
  destruct (candidates category calories_min calories_max objects)
    as [cands|e] eqn:Hc; [|discriminate].
  destruct (Hrows cands) as [result' [-> Hp]].
  intros H. injection H as <-.
  intros r. rewrite Hp, Hpun, !list_elem_of_fmap.
  intros [p [-> Hin]]. exists p. split; [done|].
  apply list_elem_of_In, filter_In in Hin as [Hin Hkeep].
  apply list_elem_of_In, filter_In. split; [|done].
  apply list_elem_of_In, (candidates_subseteq _ _ _ _ _ Hc).
  by apply list_elem_of_In.
Qed.

End PlannerMore.

Lemma search_normalized_inputs_witness :
  @UnicodeLaws arabic_block
  ∧ @_search_queryset arabic_block exact_store shelf
      (@normalize_arabic arabic_block (cp "Apple"))
      (@normalize_arabic arabic_block <$> Some (cp "fru")) None None
    = @_search_queryset arabic_block exact_store shelf (cp "Apple")
        (Some (cp "fru")) None None.
Proof.
  split; [exact arabic_block_laws|].
  apply (@search_normalized_inputs arabic_block exact_store
           arabic_block_laws).
Defined.

Lemma search_catalog_order_witness :
  shelf ≡ₚ reverse shelf
  ∧ match (@_search_queryset arabic_block exact_store shelf (cp "Apple")
             None (Some (cp "50")) None).1,
          (@_search_queryset arabic_block exact_store (reverse shelf)
             (cp "Apple") None (Some (cp "50")) None).1
    with
    | Ok result, Ok result' => result ≡ₚ result'
    | Raise e, Raise e' => e = e'
    | _, _ => False
    end.
Proof.
  assert (H : shelf ≡ₚ reverse shelf) by (symmetry; apply reverse_Permutation).
  split; [exact H|].
  exact (proj1 (@search_catalog_order arabic_block exact_store _ _
                  (cp "Apple") None (Some (cp "50")) None H)).
Defined.

Example shelf_reversed :
  match (@_search_queryset arabic_block exact_store (reverse shelf)
           (cp "Apple") None (Some (cp "50")) None).1 with
  | Ok result => Some ((λ r, pk (product r)) <$> result)
  | Raise _ => None
  end
  = Some [1; 3; 4]%Z.
Proof. vm_compute. reflexivity. Qed.

Example larder_filters_narrow :
  (@_search_queryset arabic_block double_store larder (cp "Apple")
     (Some (cp "fru")) (Some (cp "inf")) None).1
  = Raise OverflowError
  ∧ match (@_search_queryset arabic_block double_store larder (cp "Apple")
             None None None).1 with
    | Ok unfiltered => Some (length unfiltered)
    | Raise _ => None
    end
    = Some 2%nat.
Proof. split; vm_compute; reflexivity. Qed.

(** ** The search endpoint *)

Lemma lstrip_nil_iff (s : text) :
  lstrip s = [] ↔ Forall (λ c, isspace c = true) s.
Proof.
  split; [|apply lstrip_all_space].
  induction s as [|c s IH]; [done|]. simpl.
  destruct (isspace c) eqn:Hc; [|done].
  intros H. constructor; auto.
Qed.

Lemma lstrip_idem (s : text) : lstrip (lstrip s) = lstrip s.
Proof.
  induction s as [|c s IH]; [done|]. simpl.
  destruct (isspace c) eqn:Hc; [done|]. simpl. by rewrite Hc.
Qed.

Lemma strip_nil_iff (s : text) :
  strip s = [] ↔ Forall (λ c, isspace c = true) s.
Proof.
  split; [|apply strip_all_space].
  unfold strip, rstrip. intros H.
  apply (f_equal reverse) in H. rewrite reverse_involutive in H.
  change (reverse []) with (@nil N) in H.
  apply lstrip_nil_iff, Forall_reverse in H.
  rewrite reverse_involutive in H.
  apply lstrip_nil_iff. apply lstrip_nil_iff in H.
  by rewrite lstrip_idem in H.
Qed.

(** X6: [search] skips the planner and the catalog exactly when [q] is
    absent, empty or made of whitespace only: its trace is empty if and
    only if every code point of [q] is whitespace. *)
Theorem search_skips_planner_iff `{U : UnicodeData} `{E : Externals}
    `{F : !Framework} (objects : list Product)
    (query_params : gmap text text) :
  (search objects query_params).2 = []
  ↔ Forall (λ c, isspace c = true) (default [] (query_params !! cp "q")).
Proof.
  rewrite <- strip_nil_iff. unfold search.
  destruct (strip (default [] (query_params !! cp "q"))) as [|c q] eqn:Hq.
  - done.
  - cbn [str_truthy negb].
    destruct (_search_queryset _ _ _ _ _) as [[queryset|e] lg]; [|done].
    destruct (paginate_queryset _ _) as [[page|]|e]; done.
Qed.

(** ** The cache layer *)

Lemma lookup_foldr_delete_notin {A : Type} (m : gmap text A) (ks : list text)
    (k : text) :
  k ∉ ks → foldr delete m ks !! k = m !! k.
Proof.
  induction ks as [|k' ks IH]; [done|].
  intros [Hne Hin]%not_elem_of_cons. simpl.
  rewrite lookup_delete_ne by done. by apply IH.
Qed.

Section CacheMore.
Context {V : Views}.

(** X7: list responses are cached per page number alone.  Once a list
    request has stored its response, every later request for the same
    page, whatever its other parameters and whatever the catalog has
    become, is answered with that response while the entry lives. *)
Theorem list_cached_per_page (w : world) (m : gmap text entry)
    (query_params query_params' : gmap text text) (d : Data) (c' : Catalog) :
  redis w = Some m →
  m !! make_key (list_cache_key (default (cp "1") (query_params !! cp "page")))
  = None →
  super_list query_params (catalog w) = Ok d →
  data_truthy d = true →
  default (cp "1") (query_params' !! cp "page")
  = default (cp "1") (query_params !! cp "page") →
  (list_products query_params'
     (set_catalog c' (list_products query_params w).2)).1
  = Ok d.
Proof.
  intros Hm Hmiss Hd Htrue Hpage.
  rewrite (list_products_miss w m) by done. rewrite Hd. cbn [snd].
  erewrite list_products_hit; [done|reflexivity| |exact Htrue].
  rewrite Hpage. apply lookup_insert_eq.
Qed.

(** X8: the detail cache is read-through: after a detail read that
    missed and stored its response, the next read of the same key is
    answered from the cache, whatever the catalog has become, while the
    entry lives. *)
Theorem retrieve_read_through (w : world) (m : gmap text entry)
    (product_id : text) (d : Data) (c' : Catalog) :
  redis w = Some m →
  m !! make_key (detail_cache_key product_id) = None →
  super_retrieve product_id (catalog w) = Ok d →
  data_truthy d = true →
  (retrieve product_id (set_catalog c' (retrieve product_id w).2)).1 = Ok d.
Proof.
  intros Hm Hmiss Hd Htrue.
  rewrite (retrieve_miss w m) by done. rewrite Hd. cbn [snd].
  erewrite retrieve_hit; [done|reflexivity| |exact Htrue].
  apply lookup_insert_eq.
Qed.

(** X9: a cached response that is falsy (an empty body) is never served:
    the read goes to the catalog as on a miss and overwrites the entry. *)
Theorem falsy_entry_recomputed (w : world) (m : gmap text entry)
    (d : Data) (t : N) :
  redis w = Some m → data_truthy d = false →
  (∀ product_id,
     m !! make_key (detail_cache_key product_id) = Some (EString d t) →
     retrieve product_id w
     = match super_retrieve product_id (catalog w) with
       | Ok d' =>
           (Ok d',
            set_redis
              (<[make_key (detail_cache_key product_id) := EString d' 600]> m)
              w)
       | Raise e => (Raise e, w)
       end)
  ∧ (∀ query_params,
       m !! make_key
              (list_cache_key (default (cp "1") (query_params !! cp "page")))
       = Some (EString d t) →
       list_products query_params w
       = match super_list query_params (catalog w) with
         | Ok d' =>
             (Ok d',
              set_redis
                (<[make_key
                     (list_cache_key
                        (default (cp "1") (query_params !! cp "page")))
                   := EString d' 600]> m) w)
         | Raise e => (Raise e, w)
         end).
Proof.
  intros Hm Hfalse. split.
  - intros product_id Hhit.
    unfold retrieve, bind, cache_get. fold (detail_cache_key product_id).
    rewrite Hm, Hhit, Hfalse. unfold read_catalog, cache_set.
    destruct (super_retrieve product_id (catalog w)); [|done].
    by rewrite Hm.
  - intros query_params Hhit.
    unfold list_products, bind, cache_get.
    fold (list_cache_key (default (cp "1") (query_params !! cp "page"))).
    rewrite Hm, Hhit, Hfalse. unfold read_catalog, cache_set.
    destruct (super_list query_params (catalog w)); [|done].
    by rewrite Hm.
Qed.

(** X10: a read that reaches the catalog and fails there (a missing
    product, an invalid page) stores nothing: the world is as before. *)
Theorem failed_read_caches_nothing (w : world) (m : gmap text entry)
    (e : exn) :
  redis w = Some m →
  (∀ product_id,
     m !! make_key (detail_cache_key product_id) = None →
     super_retrieve product_id (catalog w) = Raise e →
     retrieve product_id w = (Raise e, w))
  ∧ (∀ query_params,
       m !! make_key
              (list_cache_key (default (cp "1") (query_params !! cp "page")))
       = None →
       super_list query_params (catalog w) = Raise e →
       list_products query_params w = (Raise e, w)).
Proof.
  intros Hm. split.
  - intros product_id Hmiss He. rewrite (retrieve_miss w m) by done.
    by rewrite He.
  - intros query_params Hmiss He. rewrite (list_products_miss w m) by done.
    by rewrite He.
Qed.

(** X11: a read never changes the catalog, and in the cache it changes
    at most the entry under its own key. *)
Theorem reads_frame (w : world) :
  (∀ product_id,
     catalog (retrieve product_id w).2 = catalog w
     ∧ match redis w, redis (retrieve product_id w).2 with
       | Some m, Some m' =>
           ∀ k, k ≠ make_key (detail_cache_key product_id) →
                m' !! k = m !! k
       | None, None => True
       | _, _ => False
       end)
  ∧ (∀ query_params,
       catalog (list_products query_params w).2 = catalog w
       ∧ match redis w, redis (list_products query_params w).2 with
         | Some m, Some m' =>
             ∀ k,
               k ≠ make_key
                     (list_cache_key
                        (default (cp "1") (query_params !! cp "page"))) →
               m' !! k = m !! k
         | None, None => True
         | _, _ => False
         end).
Proof.
  split.
  - intros product_id.
    unfold retrieve, bind, cache_get, cache_set, read_catalog, logger_debug,
      omit_exception, ret, raise.
    fold (detail_cache_key product_id).
    destruct (redis w) as [m|] eqn:Hm.
    + destruct (m !! make_key (detail_cache_key product_id))
        as [[d t|s]|] eqn:Hk;
        [destruct (data_truthy d)| |];
        try destruct ignore_exceptions;
        try destruct (super_retrieve product_id (catalog w));
        cbn [fst snd catalog redis set_redis]; rewrite ?Hm;
        cbn [fst snd catalog redis set_redis];
        (split; [reflexivity|]); try done;
        intros k Hne; by rewrite lookup_insert_ne.
    + destruct ignore_exceptions;
        try destruct (super_retrieve product_id (catalog w));
        cbn [fst snd catalog redis]; rewrite ?Hm;
        cbn [fst snd catalog redis]; rewrite ?Hm; done.
  - intros query_params.
    unfold list_products, bind, cache_get, cache_set, read_catalog,
      logger_debug, omit_exception, ret, raise.
    fold (list_cache_key (default (cp "1") (query_params !! cp "page"))).
    destruct (redis w) as [m|] eqn:Hm.
    + destruct (m !! make_key
                  (list_cache_key
                     (default (cp "1") (query_params !! cp "page"))))
        as [[d t|s]|] eqn:Hk;
        [destruct (data_truthy d)| |];
        try destruct ignore_exceptions;
        try destruct (super_list query_params (catalog w));
        cbn [fst snd catalog redis set_redis]; rewrite ?Hm;
        cbn [fst snd catalog redis set_redis];
        (split; [reflexivity|]); try done;
        intros k Hne; by rewrite lookup_insert_ne.
    + destruct ignore_exceptions;
        try destruct (super_list query_params (catalog w));
        cbn [fst snd catalog redis]; rewrite ?Hm;
        cbn [fst snd catalog redis]; rewrite ?Hm; done.
Qed.

(** X12: a write that the catalog rejects invalidates nothing: the cache,
    the catalog and the log are as before. *)
Theorem failed_write_keeps_cache (w : world) (e : exn) :
  (∀ serializer,
     serializer_save serializer (catalog w) = Raise e →
     perform_create serializer w = (Raise e, w)
     ∧ perform_update serializer w = (Raise e, w))
  ∧ (∀ product_id,
       instance_delete product_id (catalog w) = Raise e →
       perform_destroy product_id w = (Raise e, w)).
Proof.
  split.
  - intros serializer He.
    unfold perform_create, perform_update, bind, write_catalog.
    by rewrite He.
  - intros product_id He.
    unfold perform_destroy, bind, write_catalog. by rewrite He.
Qed.

End CacheMore.

Section Invalidation.
Context {V : Views}.

Lemma sweep_lookup_exact (product_id : Z) (m : gmap text entry) (k : text) :
  delete (make_key (cp "products:" ++ str_of_id product_id))
    (filter (λ kv, swept (cp "products:all:*") kv.1 = false) m) !! k
  = if decide (swept (cp "products:all:*") k = true
               ∨ k = make_key (cp "products:" ++ str_of_id product_id))
    then None else m !! k.
Proof.
  case_decide as Hk.
  - apply lookup_delete_None. destruct Hk as [Hk| ->]; [right|by left].
    apply map_lookup_filter_None_2. right. intros x _. simpl. by rewrite Hk.
  - rewrite lookup_delete_ne
      by (intros Heq; apply Hk; right; symmetry; exact Heq).
    destruct (m !! k) as [x|] eqn:Hx.
    + apply map_lookup_filter_Some_2; [done|]. simpl.
      destruct (swept _ k); [|done]. exfalso. apply Hk. by left.
    + apply map_lookup_filter_None_2. by left.
Qed.

(** The cache an invalidation leaves, spelled out. *)
Lemma invalidate_product_cache_exact (product_id : Z) (w : world)
    (m : gmap text entry) :
  redis w = Some m → registry_ok m →
  ∃ lg,
    invalidate_product_cache product_id w
    = (Ok (),
       {| catalog := catalog w;
          redis :=
            Some
              (foldr delete
                 (delete (make_key (cp "products:" ++ str_of_id product_id))
                    (filter (λ kv, swept (cp "products:all:*") kv.1 = false)
                       m))
                 (if decide (registered m = ∅) then []
                  else elements (registered m) ++ [registry_key]));
          log := lg |}).
Proof.
  intros Hm Hok.
  destruct (sweep_lookups product_id m) as [_ [_ [Hreg _]]].
  set (m2 := delete (make_key (cp "products:" ++ str_of_id product_id))
               (filter (λ kv, swept (cp "products:all:*") kv.1 = false) m))
    in *.
  unfold invalidate_product_cache, bind, cache_delete_pattern, cache_delete.
  rewrite Hm. cbn [set_redis redis catalog log]. fold m2.
  unfold invalidate_all_search_cache, bind, redis_smembers.
  cbn [redis set_redis catalog log]. change (cp "search_keys") with registry_key.
  rewrite Hreg. unfold registry_ok, registered in *.
  destruct (m !! registry_key) as [[v t|s]|]; [done| |].
  - destruct (decide (s = ∅)) as [->|Hs].
    + eexists. unfold ret. reflexivity.
    + eexists. unfold redis_delete, logger_debug. cbn [redis]. reflexivity.
  - eexists. rewrite decide_True by done. unfold ret. reflexivity.
Qed.

Lemma invalidate_lookup_exact (product_id : Z) (m : gmap text entry)
    (k : text) :
  foldr delete
    (delete (make_key (cp "products:" ++ str_of_id product_id))
       (filter (λ kv, swept (cp "products:all:*") kv.1 = false) m))
    (if decide (registered m = ∅) then []
     else elements (registered m) ++ [registry_key]) !! k
  = if decide (swept (cp "products:all:*") k = true
               ∨ k = make_key (cp "products:" ++ str_of_id product_id)
               ∨ k ∈ registered m
               ∨ (registered m ≠ ∅ ∧ k = registry_key))
    then None else m !! k.
Proof.
  destruct (decide (registered m = ∅)) as [He|Hne].
  - cbn [foldr]. rewrite sweep_lookup_exact, He.
    do 2 case_decide; try done; exfalso.
    + apply H0. destruct H as [H|H]; auto.
    + apply H. destruct H0 as [H0|[H0|[H0|[H0 _]]]]; auto.
      by apply not_elem_of_empty in H0.
  - destruct (decide (k ∈ elements (registered m) ++ [registry_key]))
      as [Hin|Hnin].
    + rewrite lookup_foldr_delete_elem by done.
      rewrite decide_True; [done|].
      apply elem_of_app in Hin as [Hin|Hin%list_elem_of_singleton].
      * right; right; left. by apply elem_of_elements.
      * right; right; right. done.
    + rewrite lookup_foldr_delete_notin by done.
      rewrite sweep_lookup_exact.
      do 2 case_decide; try done; exfalso.
      * apply H0. destruct H as [H|H]; auto.
      * destruct H0 as [H0|[H0|[H0|[_ H0]]]]; [apply H; auto..| |];
          apply Hnin, elem_of_app;
          [left; by apply elem_of_elements
          |right; by apply list_elem_of_singleton].
Qed.

(** X13: an invalidation removes entries and nothing else: a key that is
    not a list page, not the written product's detail key, not registered
    and not the registry keeps its entry. *)
Theorem invalidation_survivors (product_id : Z) (w : world)
    (m : gmap text entry) :
  redis w = Some m → registry_ok m →
  ∃ m' lg,
    invalidate_product_cache product_id w
    = (Ok (), {| catalog := catalog w; redis := Some m'; log := lg |})
    ∧ ∀ k,
        swept (cp "products:all:*") k = false →
        k ≠ make_key (detail_cache_key (str_of_id product_id)) →
        k ∉ registered m →
        k ≠ registry_key →
        m' !! k = m !! k.
Proof.
  intros Hm Hok.
  destruct (invalidate_product_cache_exact product_id w m Hm Hok)
    as [lg Hrun].
  eexists _, lg. split; [exact Hrun|].
  intros k Hswept Hdetail Hreg Hkey.
  rewrite invalidate_lookup_exact. rewrite decide_False; [done|].
  rewrite Hswept. unfold detail_cache_key in Hdetail.
  intros [H|[H|[H|[_ H]]]]; done.
Qed.

(** X14: invalidation is idempotent on the cache: run again at once, it
    succeeds and leaves the cache as the first run left it. *)
Theorem invalidation_idempotent (product_id : Z) (w : world)
    (m : gmap text entry) :
  redis w = Some m → registry_ok m →
  ∃ m' lg lg',
    invalidate_product_cache product_id w
    = (Ok (), {| catalog := catalog w; redis := Some m'; log := lg |})
    ∧ invalidate_product_cache product_id
        {| catalog := catalog w; redis := Some m'; log := lg |}
      = (Ok (), {| catalog := catalog w; redis := Some m'; log := lg' |}).
Proof.
  intros Hm Hok.
  destruct (invalidate_product_cache_exact product_id w m Hm Hok)
    as [lg Hrun].
  set (m' := foldr delete _ _) in Hrun.
  assert (Hreg' : m' !! registry_key = None
                  ∨ m' !! registry_key = Some (ESet ∅)).
  { unfold m'. rewrite invalidate_lookup_exact.
    unfold registry_ok, registered in *.
    destruct (m !! registry_key) as [[v t|s]|] eqn:Hs; [done| |].
    - destruct (decide (s = ∅)) as [->|Hne].
      + case_decide; auto.
      + left. rewrite decide_True; [done|]. auto.
    - case_decide; auto. }
  assert (Hok' : registry_ok m').
  { unfold registry_ok. by destruct Hreg' as [-> | ->]. }
  assert (Hempty : registered m' = ∅).
  { unfold registered. by destruct Hreg' as [-> | ->]. }
  destruct (invalidate_product_cache_exact product_id
              {| catalog := catalog w; redis := Some m'; log := lg |}
              m' eq_refl Hok') as [lg' Hrun'].
  exists m', lg, lg'. split; [exact Hrun|].
  rewrite Hrun'. cbn [catalog]. do 3 f_equal.
  apply map_eq. intros k. unfold m'.
  rewrite !invalidate_lookup_exact. fold m'. rewrite Hempty.
  repeat case_decide; try done. exfalso.
  match goal with
  | Hn : ¬ _, Hp : _ ∨ _ |- _ =>
      apply Hn; destruct Hp as [Hp|[Hp|[Hp|[Hp _]]]];
      [by left|by right; left|by apply not_elem_of_empty in Hp|done]
  end.
Qed.

End Invalidation.

(** ** The models: [Category.save] *)

Lemma cp_inj (s1 s2 : string) : cp s1 = cp s2 → s1 = s2.
Proof.
  unfold cp. intros H.
  rewrite <- (string_of_list_ascii_of_string s1),
    <- (string_of_list_ascii_of_string s2).
  f_equal. revert H.
  generalize (list_ascii_of_string s1) (list_ascii_of_string s2).
  induction l as [|a l IH]; intros [|b l'] H; try done.
  injection H as Hab Hl.
  f_equal; [|by apply IH].
  rewrite <- (ascii_N_embedding a), <- (ascii_N_embedding b).
  by rewrite Hab.
Qed.

Lemma slug_candidate_inj (base_slug : text) (i k : N) :
  slug_candidate base_slug i = slug_candidate base_slug k → i = k.
Proof.
  unfold slug_candidate.
  destruct (N.eqb_spec i 0) as [->|Hi], (N.eqb_spec k 0) as [->|Hk];
    [done| | |].
  - intros H. rewrite <- (app_nil_r base_slug) in H at 1.
    by apply app_inv_head in H.
  - intros H. rewrite <- (app_nil_r base_slug) in H at 2.
    by apply app_inv_head in H.
  - intros H. do 2 apply app_inv_head in H.
    by apply cp_inj, pretty_N_inj in H.
Qed.

Lemma slug_candidate_succ (base_slug : text) (j : N) :
  base_slug ++ cp "-" ++ cp (pretty (j + 1)) = slug_candidate base_slug (j + 1).
Proof.
  unfold slug_candidate. destruct (N.eqb_spec (j + 1) 0); [lia|done].
Qed.

(** The loop stops at the first candidate that is not taken, if one comes
    within [fuel] probes. *)
Lemma slug_loop_spec (fuel : nat) (taken : text → bool) (base_slug : text)
    (j : N) :
  match slug_loop fuel taken base_slug (slug_candidate base_slug j) (j + 1) with
  | Some s =>
      ∃ k, j ≤ k < j + N.of_nat fuel
           ∧ s = slug_candidate base_slug k
           ∧ taken s = false
           ∧ ∀ i, j ≤ i < k → taken (slug_candidate base_slug i) = true
  | None =>
      ∀ i, j ≤ i < j + N.of_nat fuel →
           taken (slug_candidate base_slug i) = true
  end.
Proof.
  revert j. induction fuel as [|fuel IH]; intros j; [simpl; intros; lia|].
  cbn [slug_loop].
  destruct (taken (slug_candidate base_slug j)) eqn:Hj.
  - rewrite slug_candidate_succ. specialize (IH (j + 1)).
    destruct (slug_loop fuel taken base_slug _ _) as [s|].
    + destruct IH as [k [Hk [-> [Hfree Hbefore]]]].
      exists k. repeat split; [lia|lia|done|].
      intros i Hi. destruct (decide (i = j)) as [->|]; [done|].
      apply Hbefore. lia.
    + intros i Hi. destruct (decide (i = j)) as [->|]; [done|].
      apply IH. lia.
  - exists j. repeat split; [lia|lia|done|]. intros i Hi. lia.
Qed.

Lemma slug_taken_elem (table : list Category) (self_id : option Z)
    (slug : text) :
  slug_taken table self_id slug = true
  ↔ ∃ c, c ∈ table ∧ category_slug c = slug ∧ Some (category_id c) ≠ self_id.
Proof.
  unfold slug_taken. rewrite existsb_exists. split.
  - intros [c [Hin H]]. exists c.
    apply andb_true_iff in H as [H1 H2].
    apply bool_decide_eq_true in H1.
    apply negb_true_iff, bool_decide_eq_false in H2.
    by rewrite list_elem_of_In.
  - intros [c [Hin [H1 H2]]]. exists c.
    rewrite <- list_elem_of_In. split; [done|].
    apply andb_true_iff. split; [by apply bool_decide_eq_true|].
    by apply negb_true_iff, bool_decide_eq_false.
Qed.

(** More candidates than rows cannot all be taken. *)
Lemma slug_candidates_exhaust (table : list Category) (self_id : option Z)
    (base_slug : text) :
  ¬ ∀ i, 0 ≤ i < 0 + N.of_nat (S (length table)) →
         slug_taken table self_id (slug_candidate base_slug i) = true.
Proof.
  intros Hall.
  assert (length ((λ i, slug_candidate base_slug (N.of_nat i))
                    <$> seq 0 (S (length table)))
          ≤ length (category_slug <$> table))%nat as Hle.
  { apply NoDup_incl_length.
    - apply NoDup_ListNoDup, NoDup_fmap_2_strong; [|apply NoDup_seq].
      intros x y _ _ H. apply slug_candidate_inj in H. lia.
    - intros s [i [-> Hi]]%list_elem_of_In%list_elem_of_fmap.
      apply elem_of_seq in Hi.
      destruct (proj1 (slug_taken_elem table self_id _)
                  (Hall (N.of_nat i) ltac:(lia))) as [c [Hc [Hs _]]].
      apply list_elem_of_In, list_elem_of_fmap. eauto. }
  rewrite !length_fmap, length_seq in Hle. lia.
Qed.

Section CategoryFacts.
Variable slugify : text → text.
Variable Saved : Type.
Variable super_save : CategoryInstance → list Category → Saved.

Lemma Category_save_spec (self : CategoryInstance) (table : list Category) :
  instance_slug self = [] →
  ∃ k,
    Category_save slugify Saved super_save self table
    = Some (super_save
              {| instance_id := instance_id self;
                 instance_name := instance_name self;
                 instance_description := instance_description self;
                 instance_slug :=
                   slug_candidate (slugify (instance_name self)) k |}
              table)
    ∧ k ≤ N.of_nat (length table)
    ∧ slug_taken table (instance_id self)
        (slug_candidate (slugify (instance_name self)) k) = false
    ∧ ∀ i, i < k →
           slug_taken table (instance_id self)
             (slug_candidate (slugify (instance_name self)) i) = true.
Proof.
  intros Hslug. unfold Category_save. rewrite Hslug. cbn [str_truthy negb].
  pose proof (slug_loop_spec (S (length table))
                (slug_taken table (instance_id self))
                (slugify (instance_name self)) 0) as Hloop.
  change (slug_candidate (slugify (instance_name self)) 0)
    with (slugify (instance_name self)) in Hloop at 1.
  change (0 + 1) with 1 in Hloop.
  destruct (slug_loop _ _ _ _ _) as [s|].
  - destruct Hloop as [k [Hk [-> [Hfree Hbefore]]]].
    exists k. repeat split; [lia|done|]. intros i Hi. apply Hbefore. lia.
  - by destruct (slug_candidates_exhaust table (instance_id self)
                   (slugify (instance_name self))).
Qed.

(** X15: saving a category that has no slug always ends, within one probe
    more than the table has rows, and hands [super().save()] a slug that
    no other category of the table carries. *)
Theorem Category_save_fresh_slug (self : CategoryInstance)
    (table : list Category) :
  instance_slug self = [] →
  ∃ slug,
    Category_save slugify Saved super_save self table
    = Some (super_save
              {| instance_id := instance_id self;
                 instance_name := instance_name self;
                 instance_description := instance_description self;
                 instance_slug := slug |}
              table)
    ∧ ∀ c, c ∈ table → category_slug c = slug →
           Some (category_id c) = instance_id self.
Proof.
  intros Hslug.
  destruct (Category_save_spec self table Hslug) as [k [Hrun [_ [Hfree _]]]].
  eexists. split; [exact Hrun|].
  intros c Hc Hs.
  destruct (decide (Some (category_id c) = instance_id self)); [done|].
  assert (slug_taken table (instance_id self)
            (slug_candidate (slugify (instance_name self)) k) = true)
    by (apply slug_taken_elem; eauto).
  congruence.
Qed.

(** X16: the slug assigned is the first free one of [base], [base-1],
    [base-2], ...: the slug handed to [super().save()] is carried by no
    other category; it is [slugify(name)] itself exactly when no other
    category has that; otherwise it is [base-k] for the least [k >= 1]
    whose slug is free, every [base-i] with [1 <= i < k] being taken. *)
Theorem Category_save_first_free (self : CategoryInstance)
    (table : list Category) :
  instance_slug self = [] →
  ∃ k,
    Category_save slugify Saved super_save self table
    = Some (super_save
              {| instance_id := instance_id self;
                 instance_name := instance_name self;
                 instance_description := instance_description self;
                 instance_slug :=
                   if k =? 0 then slugify (instance_name self)
                   else slugify (instance_name self) ++ cp "-"
                        ++ cp (pretty k) |}
              table)
    ∧ slug_taken table (instance_id self)
        (if k =? 0 then slugify (instance_name self)
         else slugify (instance_name self) ++ cp "-" ++ cp (pretty k))
      = false
    ∧ (k = 0
       ↔ slug_taken table (instance_id self) (slugify (instance_name self))
         = false)
    ∧ ∀ i, 1 ≤ i < k →
           slug_taken table (instance_id self)
             (slugify (instance_name self) ++ cp "-" ++ cp (pretty i))
           = true.
Proof.
  intros Hslug.
  destruct (Category_save_spec self table Hslug)
    as [k [Hrun [_ [Hfree Hbefore]]]].
  exists k. split; [exact Hrun|]. split; [exact Hfree|]. split; [split|].
  - intros ->. exact Hfree.
  - intros Hbase. destruct (decide (k = 0)) as [|Hk]; [done|].
    specialize (Hbefore 0 ltac:(lia)). cbn in Hbefore. congruence.
  - intros i Hi. specialize (Hbefore i ltac:(lia)).
    unfold slug_candidate in Hbefore.
    by destruct (N.eqb_spec i 0); [lia|].
Qed.

End CategoryFacts.

(** ** The seeding command *)

Lemma concat_snoc {A : Type} (l : list (list A)) (x : list A) :
  concat (l ++ [x]) = concat l ++ x.
Proof.
  induction l as [|y l IH]; simpl; [apply app_nil_r|].
  by rewrite IH, app_assoc.
Qed.

Section PopulateFacts.
Context {A : Type}.
Variable make : nat → A.

(** Before the last iteration: everything made so far is in a full batch
    or pending, and fewer than [batch_size] products are pending. *)
Lemma handle_prefix (count batch_size : Z) (n : nat) :
  (0 < batch_size)%Z → (Z.of_nat n ≤ count - 1)%Z →
  ∃ st,
    fold_left (handle_step make count batch_size) (seq 0 n)
      (Some {| products := []; total_inserted := 0; batches := [] |})
    = Some st
    ∧ concat (batches st) ++ products st = make <$> seq 0 n
    ∧ total_inserted st = N.of_nat (length (concat (batches st)))
    ∧ Forall (λ b, Z.of_nat (length b) = batch_size) (batches st)
    ∧ (Z.of_nat (length (products st)) < batch_size)%Z.
Proof.
  intros Hpos. induction n as [|n IH]; intros Hn.
  - eexists. split; [reflexivity|]. cbn. repeat split; [constructor|lia].
  - destruct IH as [st [Hrun [Hall [Htotal [Hfull Hpending]]]]]; [lia|].
    rewrite seq_S, fold_left_app, Hrun. cbn [fold_left handle_step plus].
    rewrite length_app. cbn [length].
    destruct (Z.eqb_spec (Z.of_nat n) (count - 1)) as [|_]; [lia|].
    rewrite orb_false_r.
    destruct (Z.leb_spec batch_size (Z.of_nat (length (products st) + 1)))
      as [Hfullnow|Hroom].
    + destruct (Z.ltb_spec 0 batch_size); [|lia].
      eexists. split; [reflexivity|]. cbn [products total_inserted batches].
      rewrite concat_snoc, fmap_app.
      split; [|split; [|split]].
      * rewrite app_nil_r, app_assoc, Hall. reflexivity.
      * rewrite Htotal, !length_app. cbn [length]. lia.
      * apply Forall_app. split; [done|]. constructor; [|constructor].
        rewrite length_app. cbn [length]. lia.
      * cbn [length]. lia.
    + eexists. split; [reflexivity|]. cbn [products total_inserted batches].
      rewrite fmap_app, app_assoc, Hall.
      split; [reflexivity|]. split; [done|]. split; [done|].
      rewrite length_app. cbn [length]. lia.
Qed.

(** X17: with a positive batch size the loop of [handle] never fails and
    inserts every product it builds exactly once and in the order built:
    nothing is left pending, the counter ends at the number built, no
    batch is empty or longer than the batch size, and every batch but the
    last is full. *)
Theorem handle_batches (count batch_size : Z) :
  (0 < batch_size)%Z →
  ∃ st,
    handle make count batch_size = Some st
    ∧ products st = []
    ∧ concat (batches st) = make <$> seq 0 (Z.to_nat count)
    ∧ total_inserted st = Z.to_N count
    ∧ Forall (λ b, (0 < length b)%nat
                   ∧ (Z.of_nat (length b) ≤ batch_size)%Z) (batches st)
    ∧ ∀ j b, batches st !! j = Some b → (S j < length (batches st))%nat →
             Z.of_nat (length b) = batch_size.
Proof.
  intros Hpos. unfold handle.
  destruct (Z.to_nat count) as [|n] eqn:Hcount.
  - eexists. split; [reflexivity|]. cbn.
    repeat split; [lia|constructor|]. intros j b Hb. done.
  - destruct (handle_prefix count batch_size n Hpos ltac:(lia))
      as [st [Hrun [Hall [Htotal [Hfull Hpending]]]]].
    rewrite seq_S, fold_left_app, Hrun. cbn [fold_left handle_step plus].
    destruct (Z.eqb_spec (Z.of_nat n) (count - 1)) as [_|]; [|lia].
    rewrite orb_true_r.
    destruct (Z.ltb_spec 0 batch_size); [|lia].
    eexists. split; [reflexivity|]. cbn [products total_inserted batches].
    assert (Hcat : concat (batches st ++ [products st ++ [make n]])
                   = make <$> seq 0 n ++ [n]).
    { by rewrite concat_snoc, fmap_app, app_assoc, Hall. }
    repeat split.
    + exact Hcat.
    + rewrite Htotal.
      apply (f_equal length) in Hcat, Hall.
      rewrite concat_snoc in Hcat.
      rewrite !length_app, ?length_fmap, ?length_seq in *.
      cbn [length] in *. lia.
    + apply Forall_app. split.
      * eapply Forall_impl; [exact Hfull|]. cbn. intros b Hb. lia.
      * constructor; [|constructor]. rewrite length_app. cbn [length]. lia.
    + intros j b Hb Hj. rewrite length_app in Hj. cbn [length] in Hj.
      rewrite lookup_app_l in Hb by lia.
      eapply (proj1 (Forall_lookup _ _) Hfull); eauto.
Qed.

End PopulateFacts.

(** ** Keys of the cache layer *)

Lemma pretty_N_go_head (x : N) (s : string) :
  (∀ s', s ≠ String "a" s') → ∀ s', pretty_N_go x s ≠ String "a" s'.
Proof.
  revert s. induction (N.lt_wf_0 x) as [x _ IH]; intros s Hs.
  assert (x = 0 ∨ 0 < x)%N as [->|?] by lia.
  - by rewrite pretty_N_go_0.
  - rewrite pretty_N_go_step by done. apply IH.
    { by apply N.div_lt. }
    intros s'. unfold pretty_N_char. by repeat case_match.
Qed.

Lemma pretty_Z_head (z : Z) (s' : string) : pretty z ≠ String "a" s'.
Proof.
  destruct z as [|p|p]; [done| |done].
  unfold pretty, pretty_Z, pretty, pretty_positive, pretty, pretty_N.
  case_decide; [done|]. by apply pretty_N_go_head.
Qed.

(** The decimal form of an id does not start with the letter a. *)
Lemma str_of_id_head (z : Z) (rest : text) : str_of_id z ≠ 97 :: rest.
Proof.
  unfold str_of_id. destruct (pretty z) as [|c s] eqn:Hz; [done|].
  intros H. injection H as Hc _.
  assert (c = "a"%char) as ->.
  { rewrite <- (ascii_N_embedding c), Hc. reflexivity. }
  by apply pretty_Z_head in Hz.
Qed.

Lemma str_of_id_inj (a b : Z) : str_of_id a = str_of_id b → a = b.
Proof. unfold str_of_id. by intros H%cp_inj%pretty_Z_inj. Qed.

Section Keys.
Context {V : Views}.

Lemma swept_detail_key (product_id : Z) :
  swept (cp "products:all:*")
    (make_key (detail_cache_key (str_of_id product_id))) = false.
Proof.
  apply not_true_is_false. unfold swept, make_key, detail_cache_key.
  rewrite andb_true_iff, drop_app_length, products_all_pattern.
  intros [_ [rest H]].
  change (cp "products:all:" ++ rest)
    with (cp "products:" ++ 97 :: (cp "ll:" ++ rest)) in H.
  apply app_inv_head in H. by apply str_of_id_head in H.
Qed.

(** X18: a write to one product leaves the detail entry of every other
    product as it was, unless that entry's key is registered as a search
    key. *)
Theorem other_detail_entries_kept (a b : Z) (w : world)
    (m : gmap text entry) :
  redis w = Some m → registry_ok m → a ≠ b →
  make_key (detail_cache_key (str_of_id b)) ∉ registered m →
  ∃ m' lg,
    invalidate_product_cache a w
    = (Ok (), {| catalog := catalog w; redis := Some m'; log := lg |})
    ∧ m' !! make_key (detail_cache_key (str_of_id b))
      = m !! make_key (detail_cache_key (str_of_id b)).
Proof.
  intros Hm Hok Hab Hreg.
  destruct (invalidate_product_cache_exact a w m Hm Hok) as [lg Hrun].
  eexists _, lg. split; [exact Hrun|].
  rewrite invalidate_lookup_exact. rewrite decide_False; [done|].
  rewrite swept_detail_key.
  intros [H|[H|[H|[_ H]]]]; [done| |done|].
  - unfold make_key, detail_cache_key in H.
    do 2 apply app_inv_head in H. by apply str_of_id_inj in H.
  - symmetry in H. by apply registry_not_product_key in H.
Qed.

(** X19: the detail keys overlap the list keys: once list page [p] is
    cached, a detail request for the key [all:page:p] is answered with
    that list response and never reaches the catalog. *)
Theorem detail_key_meets_list_key (w : world) (m : gmap text entry)
    (query_params : gmap text text) (d : Data) (c' : Catalog) :
  redis w = Some m →
  m !! make_key (list_cache_key (default (cp "1") (query_params !! cp "page")))
  = None →
  super_list query_params (catalog w) = Ok d →
  data_truthy d = true →
  (retrieve (cp "all:page:" ++ default (cp "1") (query_params !! cp "page"))
     (set_catalog c' (list_products query_params w).2)).1
  = Ok d.
Proof.
  intros Hm Hmiss Hd Htrue.
  rewrite (list_products_miss w m) by done. rewrite Hd. cbn [snd].
  erewrite retrieve_hit; [done|reflexivity| |exact Htrue].
  change (detail_cache_key
            (cp "all:page:" ++ default (cp "1") (query_params !! cp "page")))
    with (list_cache_key (default (cp "1") (query_params !! cp "page"))).
  apply lookup_insert_eq.
Qed.

End Keys.

(** ** Writes and the key scheme *)

Section Writes.
Context {V : Views}.

(** What an invalidation for product [a] leaves under the detail key of
    another product [b]. *)
Lemma other_detail_lookup (a b : Z) (m : gmap text entry) :
  a ≠ b →
  make_key (detail_cache_key (str_of_id b)) ∉ registered m →
  foldr delete
    (delete (make_key (cp "products:" ++ str_of_id a))
       (filter (λ kv, swept (cp "products:all:*") kv.1 = false) m))
    (if decide (registered m = ∅) then []
     else elements (registered m) ++ [registry_key])
    !! make_key (detail_cache_key (str_of_id b))
  = m !! make_key (detail_cache_key (str_of_id b)).
Proof.
  intros Hab Hreg.
  rewrite invalidate_lookup_exact. rewrite decide_False; [done|].
  rewrite swept_detail_key.
  intros [H|[H|[H|[_ H]]]]; [done| |done|].
  - unfold make_key, detail_cache_key in H.
    do 2 apply app_inv_head in H. by apply str_of_id_inj in H.
  - symmetry in H. by apply registry_not_product_key in H.
Qed.

(** A read leaves the registry as it is. *)
Lemma retrieve_registry (product_id : text) (w : world)
    (m : gmap text entry) :
  redis w = Some m →
  ∃ m', redis (retrieve product_id w).2 = Some m'
        ∧ m' !! registry_key = m !! registry_key.
Proof.
  intros Hm.
  unfold retrieve, bind, cache_get, cache_set, read_catalog, logger_debug,
    omit_exception, ret, raise.
  rewrite Hm.
  destruct (m !! make_key (cp "products:" ++ product_id))
    as [[d t|s]|] eqn:Hk;
    [destruct (data_truthy d)| |];
    try destruct ignore_exceptions;
    try destruct (super_retrieve product_id (catalog w));
    cbn [fst snd catalog redis set_redis]; rewrite ?Hm;
    cbn [fst snd catalog redis set_redis];
    eexists; (split; [reflexivity|]); try done;
    apply lookup_insert_ne; intros H;
    exact (registry_not_product_key _ (eq_sym H)).
Qed.

Lemma list_products_registry (query_params : gmap text text) (w : world)
    (m : gmap text entry) :
  redis w = Some m →
  ∃ m', redis (list_products query_params w).2 = Some m'
        ∧ m' !! registry_key = m !! registry_key.
Proof.
  intros Hm.
  unfold list_products, bind, cache_get, cache_set, read_catalog,
    logger_debug, omit_exception, ret, raise.
  rewrite Hm.
  destruct (m !! make_key
              (cp "products:all:page:"
               ++ default (cp "1") (query_params !! cp "page")))
    as [[d t|s]|] eqn:Hk;
    [destruct (data_truthy d)| |];
    try destruct ignore_exceptions;
    try destruct (super_list query_params (catalog w));
    cbn [fst snd catalog redis set_redis]; rewrite ?Hm;
    cbn [fst snd catalog redis set_redis];
    eexists; (split; [reflexivity|]); try done;
    apply lookup_insert_ne; intros H;
    exact (registry_not_product_key
             (cp "all:page:" ++ default (cp "1") (query_params !! cp "page"))
             (eq_sym H)).
Qed.

(** An invalidation, however it ends, leaves the registry as it is or
    removes it. *)
Lemma invalidate_product_cache_registry (product_id : Z) (w : world)
    (m : gmap text entry) :
  redis w = Some m →
  ∃ m', redis (invalidate_product_cache product_id w).2 = Some m'
        ∧ (m' !! registry_key = m !! registry_key
           ∨ m' !! registry_key = None).
Proof.
  intros Hm.
  destruct (sweep_lookups product_id m) as [_ [_ [Hreg _]]].
  set (m2 := delete (make_key (cp "products:" ++ str_of_id product_id))
               (filter (λ kv, swept (cp "products:all:*") kv.1 = false) m))
    in *.
  unfold invalidate_product_cache, bind, cache_delete_pattern, cache_delete.
  rewrite Hm. cbn [set_redis redis catalog log]. fold m2.
  unfold invalidate_all_search_cache, bind, redis_smembers.
  cbn [redis set_redis catalog log]. change (cp "search_keys") with registry_key.
  destruct (m2 !! registry_key) as [[v t|s]|] eqn:Hreg2.
  - exists m2. split; [reflexivity|]. left. by rewrite <- Hreg.
  - destruct (decide (s = ∅)) as [->|Hs].
    + exists m2. split; [reflexivity|]. left. by rewrite <- Hreg.
    + unfold redis_delete, logger_debug. cbn [redis set_redis catalog log snd].
      eexists. split; [reflexivity|]. right.
      apply lookup_foldr_delete_elem, elem_of_app. right.
      by apply list_elem_of_singleton.
  - rewrite decide_True by done.
    exists m2. split; [reflexivity|]. left. by rewrite <- Hreg.
Qed.

Lemma perform_save_registry (serializer : Serializer) (w : world)
    (m : gmap text entry) :
  redis w = Some m →
  (∃ m', redis (perform_create serializer w).2 = Some m'
         ∧ (m' !! registry_key = m !! registry_key
            ∨ m' !! registry_key = None))
  ∧ (∃ m', redis (perform_update serializer w).2 = Some m'
           ∧ (m' !! registry_key = m !! registry_key
              ∨ m' !! registry_key = None)).
Proof.
  intros Hm.
  unfold perform_create, perform_update, bind, write_catalog.
  destruct (serializer_save serializer (catalog w)) as [[product_id c']|e].
  - split;
      exact (invalidate_product_cache_registry product_id (set_catalog c' w)
               m Hm).
  - split; exists m; (split; [exact Hm|by left]).
Qed.

Lemma perform_destroy_registry (product_id : Z) (w : world)
    (m : gmap text entry) :
  redis w = Some m →
  ∃ m', redis (perform_destroy product_id w).2 = Some m'
        ∧ (m' !! registry_key = m !! registry_key
           ∨ m' !! registry_key = None).
Proof.
  intros Hm.
  unfold perform_destroy, bind, write_catalog.
  destruct (instance_delete product_id (catalog w)) as [c'|e].
  - exact (invalidate_product_cache_registry product_id (set_catalog c' w)
             m Hm).
  - exists m. split; [exact Hm|by left].
Qed.

(** C4 (as amended): with the cache reachable and the registry key
    [search_keys] absent or holding a set, every create, update and delete
    of a product through the product endpoints ([perform_create],
    [perform_update], [perform_destroy]), once the catalog has taken the
    write, clears before it returns every list-page entry (the
    [products:all:*] sweep), the detail entry [products:<id>] of the
    written product and every registered search key together with the
    registry; after it a list read of any page and a detail read of that
    product under its id are computed from the catalog as written.  The
    detail entry of every other product id is left as it was, unless its
    key is registered as a search key. *)
Theorem write_invalidates (w : world) (m : gmap text entry) :
  redis w = Some m → registry_ok m →
  (∀ serializer product_id c',
     serializer_save serializer (catalog w) = Ok (product_id, c') →
     ∃ m' lg,
       perform_create serializer w
       = (Ok (), {| catalog := c'; redis := Some m'; log := lg |})
       ∧ perform_update serializer w
         = (Ok (), {| catalog := c'; redis := Some m'; log := lg |})
       ∧ invalidated product_id m m'
       ∧ (∀ query_params,
            (list_products query_params
               {| catalog := c'; redis := Some m'; log := lg |}).1
            = super_list query_params c')
       ∧ (retrieve (str_of_id product_id)
            {| catalog := c'; redis := Some m'; log := lg |}).1
         = super_retrieve (str_of_id product_id) c'
       ∧ (∀ other,
            other ≠ product_id →
            make_key (detail_cache_key (str_of_id other)) ∉ registered m →
            m' !! make_key (detail_cache_key (str_of_id other))
            = m !! make_key (detail_cache_key (str_of_id other))))
  ∧ (∀ product_id c',
       instance_delete product_id (catalog w) = Ok c' →
       ∃ m' lg,
         perform_destroy product_id w
         = (Ok (), {| catalog := c'; redis := Some m'; log := lg |})
         ∧ invalidated product_id m m'
         ∧ (∀ query_params,
              (list_products query_params
                 {| catalog := c'; redis := Some m'; log := lg |}).1
              = super_list query_params c')
         ∧ (retrieve (str_of_id product_id)
              {| catalog := c'; redis := Some m'; log := lg |}).1
           = super_retrieve (str_of_id product_id) c'
         ∧ (∀ other,
              other ≠ product_id →
              make_key (detail_cache_key (str_of_id other)) ∉ registered m →
              m' !! make_key (detail_cache_key (str_of_id other))
              = m !! make_key (detail_cache_key (str_of_id other)))).
Proof.
  intros Hm Hok.
  assert (Hrun : ∀ product_id c',
    ∃ m' lg,
      invalidate_product_cache product_id (set_catalog c' w)
      = (Ok (), {| catalog := c'; redis := Some m'; log := lg |})
      ∧ invalidated product_id m m'
      ∧ (∀ query_params,
           (list_products query_params
              {| catalog := c'; redis := Some m'; log := lg |}).1
           = super_list query_params c')
      ∧ (retrieve (str_of_id product_id)
           {| catalog := c'; redis := Some m'; log := lg |}).1
        = super_retrieve (str_of_id product_id) c'
      ∧ (∀ other,
           other ≠ product_id →
           make_key (detail_cache_key (str_of_id other)) ∉ registered m →
           m' !! make_key (detail_cache_key (str_of_id other))
           = m !! make_key (detail_cache_key (str_of_id other)))).
  { intros product_id c'.
    destruct (invalidate_product_cache_up product_id (set_catalog c' w) m
                Hm Hok) as [m' [lg [Hrun Hinv]]].
    destruct (invalidate_product_cache_exact product_id (set_catalog c' w) m
                Hm Hok) as [lg' Hexact].
    rewrite Hrun in Hexact. injection Hexact as Hm' _.
    destruct (reads_after_invalidation product_id m m' c' lg Hinv)
      as [Hl Hr].
    exists m', lg. split; [exact Hrun|]. split; [exact Hinv|].
    split; [exact Hl|]. split; [exact Hr|].
    intros other Hne Hreg. rewrite Hm'.
    apply other_detail_lookup; [by apply not_eq_sym|exact Hreg]. }
  split.
  - intros serializer product_id c' Hsave.
    destruct (Hrun product_id c') as [m' [lg [Hr Hrest]]].
    exists m', lg.
    unfold perform_create, perform_update, bind, write_catalog.
    rewrite Hsave, Hr. split; [done|]. split; [done|]. exact Hrest.
  - intros product_id c' Hdel.
    destruct (Hrun product_id c') as [m' [lg [Hr Hrest]]].
    exists m', lg.
    unfold perform_destroy, bind, write_catalog.
    rewrite Hdel, Hr. split; [done|]. exact Hrest.
Qed.

(** C8 (as amended): list reads go through the cache key
    [products:all:page:<page>] and detail reads through [products:<id>],
    each under the backend's prefix: a truthy hit on that key answers the
    request, a miss stores the computed response under it for 600
    seconds.  With the registry absent or a set, an invalidation leaves
    exactly the cache without the keys that match [products:all:*], which
    every list key does, without the written product's detail key and,
    when the set under [search_keys] has members, without those members
    and [search_keys] itself.  No view adds to the registry: after a list
    or detail read the entry under [search_keys] is what it was, and after
    a create, update or delete, however it ends, it is what it was or
    gone. *)
Theorem cache_key_scheme (w : world) (m : gmap text entry) :
  redis w = Some m →
  (∀ query_params d t,
     m !! (key_prefix ++ cp "products:all:page:"
           ++ default (cp "1") (query_params !! cp "page"))
     = Some (EString d t) →
     data_truthy d = true →
     (list_products query_params w).1 = Ok d)
  ∧ (∀ query_params d,
       m !! (key_prefix ++ cp "products:all:page:"
             ++ default (cp "1") (query_params !! cp "page"))
       = None →
       super_list query_params (catalog w) = Ok d →
       list_products query_params w
       = (Ok d,
          set_redis
            (<[key_prefix ++ cp "products:all:page:"
               ++ default (cp "1") (query_params !! cp "page")
               := EString d 600]> m) w))
  ∧ (∀ product_id d t,
       m !! (key_prefix ++ cp "products:" ++ product_id)
       = Some (EString d t) →
       data_truthy d = true →
       (retrieve product_id w).1 = Ok d)
  ∧ (∀ product_id d,
       m !! (key_prefix ++ cp "products:" ++ product_id) = None →
       super_retrieve product_id (catalog w) = Ok d →
       retrieve product_id w
       = (Ok d,
          set_redis
            (<[key_prefix ++ cp "products:" ++ product_id
               := EString d 600]> m) w))
  ∧ (registry_ok m →
     ∀ product_id,
       ∃ lg,
         invalidate_product_cache product_id w
         = (Ok (),
            {| catalog := catalog w;
               redis :=
                 Some
                   (foldr delete
                      (delete
                         (key_prefix ++ cp "products:" ++ str_of_id product_id)
                         (filter
                            (λ kv, swept (cp "products:all:*") kv.1 = false)
                            m))
                      (if decide (registered m = ∅) then []
                       else elements (registered m) ++ [cp "search_keys"]));
               log := lg |}))
  ∧ (∀ page_number,
       swept (cp "products:all:*")
         (key_prefix ++ cp "products:all:page:" ++ page_number) = true)
  ∧ (∀ query_params,
       ∃ m', redis (list_products query_params w).2 = Some m'
             ∧ m' !! cp "search_keys" = m !! cp "search_keys")
  ∧ (∀ product_id,
       ∃ m', redis (retrieve product_id w).2 = Some m'
             ∧ m' !! cp "search_keys" = m !! cp "search_keys")
  ∧ (∀ serializer,
       ∃ m', redis (perform_create serializer w).2 = Some m'
             ∧ (m' !! cp "search_keys" = m !! cp "search_keys"
                ∨ m' !! cp "search_keys" = None))
  ∧ (∀ serializer,
       ∃ m', redis (perform_update serializer w).2 = Some m'
             ∧ (m' !! cp "search_keys" = m !! cp "search_keys"
                ∨ m' !! cp "search_keys" = None))
  ∧ (∀ product_id,
       ∃ m', redis (perform_destroy product_id w).2 = Some m'
             ∧ (m' !! cp "search_keys" = m !! cp "search_keys"
                ∨ m' !! cp "search_keys" = None)).
Proof.
  intros Hm.
  split; [|split; [|split; [|split; [|split; [|split; [|split; [|split;
    [|split; [|split]]]]]]]]].
  - intros query_params d t Hhit Hd.
    by rewrite (list_products_hit w m query_params d t).
  - intros query_params d Hmiss Hd.
    rewrite (list_products_miss w m) by done. by rewrite Hd.
  - intros product_id d t Hhit Hd.
    by rewrite (retrieve_hit w m product_id d t).
  - intros product_id d Hmiss Hd.
    rewrite (retrieve_miss w m) by done. by rewrite Hd.
  - intros Hok product_id.
    exact (invalidate_product_cache_exact product_id w m Hm Hok).
  - apply swept_list_key.
  - intros query_params. exact (list_products_registry query_params w m Hm).
  - intros product_id. exact (retrieve_registry product_id w m Hm).
  - intros serializer. exact (proj1 (perform_save_registry serializer w m Hm)).
  - intros serializer. exact (proj2 (perform_save_registry serializer w m Hm)).
  - intros product_id. exact (perform_destroy_registry product_id w m Hm).
Qed.

End Writes.

(** ** Witnesses on the concrete instances *)

Lemma list_cached_per_page_witness :
  redis (pantry false) = Some ∅
  ∧ (∅ : gmap text (@entry (row_views false)))
      !! @make_key (row_views false)
           (list_cache_key
              (default (cp "1") ((∅ : gmap text text) !! cp "page")))
    = None
  ∧ @super_list (row_views false) ∅ (catalog (pantry false))
    = Ok [(1%Z, cp "Apple"); (2%Z, cp "Pear")]
  ∧ @data_truthy (row_views false) [(1%Z, cp "Apple"); (2%Z, cp "Pear")]
    = true
  ∧ default (cp "1")
      (({[ cp "page_size" := cp "1" ]} : gmap text text) !! cp "page")
    = default (cp "1") ((∅ : gmap text text) !! cp "page")
  ∧ (@list_products (row_views false) {[ cp "page_size" := cp "1" ]}
       (@set_catalog (row_views false) []
          (@list_products (row_views false) ∅ (pantry false)).2)).1
    = Ok [(1%Z, cp "Apple"); (2%Z, cp "Pear")].
Proof.
  assert (H : default (cp "1")
                (({[ cp "page_size" := cp "1" ]} : gmap text text)
                   !! cp "page")
              = default (cp "1") ((∅ : gmap text text) !! cp "page"))
    by (vm_compute; reflexivity).
  repeat (split; [first [reflexivity|exact H]|]).
  exact (@list_cached_per_page (row_views false) (pantry false) ∅ ∅
           {[ cp "page_size" := cp "1" ]}
           [(1%Z, cp "Apple"); (2%Z, cp "Pear")] []
           eq_refl eq_refl eq_refl eq_refl H).
Defined.

Lemma retrieve_read_through_witness :
  redis (pantry false) = Some ∅
  ∧ @super_retrieve (row_views false) (cp "2") (catalog (pantry false))
    = Ok [(2%Z, cp "Pear")]
  ∧ (@retrieve (row_views false) (cp "2")
       (@set_catalog (row_views false) []
          (@retrieve (row_views false) (cp "2") (pantry false)).2)).1
    = Ok [(2%Z, cp "Pear")].
Proof.
  repeat (split; [reflexivity|]).
  exact (@retrieve_read_through (row_views false) (pantry false) ∅ (cp "2")
           [(2%Z, cp "Pear")] [] eq_refl eq_refl eq_refl eq_refl).
Defined.

Lemma falsy_entry_recomputed_witness :
  @data_truthy (row_views false) [] = false
  ∧ (@retrieve (row_views false) (cp "2") chilled).1
    = Ok [(2%Z, cp "Pear")].
Proof.
  split; [reflexivity|].
  rewrite (proj1 (@falsy_entry_recomputed (row_views false) chilled
                    {[ cp ":1:products:2" := @EString (row_views false) [] 600 ]}
                    [] 600 eq_refl eq_refl)
             (cp "2") ltac:(vm_compute; reflexivity)).
  reflexivity.
Defined.

Lemma failed_read_caches_nothing_witness :
  redis (pantry false) = Some ∅
  ∧ @super_retrieve (row_views false) (cp "9") (catalog (pantry false))
    = Raise Http404
  ∧ @retrieve (row_views false) (cp "9") (pantry false)
    = (Raise Http404, pantry false).
Proof.
  repeat (split; [reflexivity|]).
  exact (proj1 (@failed_read_caches_nothing (row_views false) (pantry false)
                  ∅ Http404 eq_refl) (cp "9") eq_refl eq_refl).
Defined.

Lemma failed_write_keeps_cache_witness :
  @serializer_save checked_views (Some 9%Z, cp "Plum")
    [(1%Z, cp "Apple"); (2%Z, cp "Pear")]
  = Raise Http404
  ∧ @perform_update checked_views (Some 9%Z, cp "Plum")
      (@Build_world checked_views
         [(1%Z, cp "Apple"); (2%Z, cp "Pear")] (Some ∅) [])
    = (Raise Http404,
       @Build_world checked_views
         [(1%Z, cp "Apple"); (2%Z, cp "Pear")] (Some ∅) []).
Proof.
  split; [reflexivity|].
  exact (proj2 (proj1 (@failed_write_keeps_cache checked_views
                         (@Build_world checked_views
                            [(1%Z, cp "Apple"); (2%Z, cp "Pear")] (Some ∅) [])
                         Http404)
                  (Some 9%Z, cp "Plum") eq_refl)).
Defined.

Lemma stocked_registry_ok : @registry_ok (row_views false) stocked_cache.
Proof. vm_compute. exact I. Qed.

Lemma invalidation_survivors_witness :
  redis stocked = Some stocked_cache
  ∧ @registry_ok (row_views false) stocked_cache
  ∧ ∃ m' lg,
      @invalidate_product_cache (row_views false) 2 stocked
      = (Ok (),
         @Build_world (row_views false) (catalog stocked) (Some m') lg)
      ∧ m' !! cp ":1:products:1" = stocked_cache !! cp ":1:products:1".
Proof.
  split; [reflexivity|]. split; [exact stocked_registry_ok|].
  destruct (@invalidation_survivors (row_views false) 2 stocked
              stocked_cache eq_refl stocked_registry_ok)
    as [m' [lg [Hrun Hkeep]]].
  exists m', lg. split; [exact Hrun|].
  apply Hkeep.
  - vm_compute; reflexivity.
  - vm_compute; discriminate.
  - vm_compute. intros H. discriminate H.
  - vm_compute; discriminate.
Defined.

Lemma invalidation_idempotent_witness :
  redis stocked = Some stocked_cache
  ∧ @registry_ok (row_views false) stocked_cache
  ∧ ∃ m' lg lg',
      @invalidate_product_cache (row_views false) 1 stocked
      = (Ok (),
         @Build_world (row_views false) (catalog stocked) (Some m') lg)
      ∧ @invalidate_product_cache (row_views false) 1
          (@Build_world (row_views false) (catalog stocked) (Some m') lg)
        = (Ok (),
           @Build_world (row_views false) (catalog stocked) (Some m') lg').
Proof.
  split; [reflexivity|]. split; [exact stocked_registry_ok|].
  exact (@invalidation_idempotent (row_views false) 1 stocked stocked_cache
           eq_refl stocked_registry_ok).
Defined.

Lemma other_detail_entries_kept_witness :
  redis stocked = Some stocked_cache
  ∧ @registry_ok (row_views false) stocked_cache
  ∧ 2%Z ≠ 1%Z
  ∧ ∃ m' lg,
      @invalidate_product_cache (row_views false) 2 stocked
      = (Ok (),
         @Build_world (row_views false) (catalog stocked) (Some m') lg)
      ∧ m' !! @make_key (row_views false) (detail_cache_key (str_of_id 1))
        = stocked_cache
            !! @make_key (row_views false) (detail_cache_key (str_of_id 1)).
Proof.
  split; [reflexivity|]. split; [exact stocked_registry_ok|].
  split; [done|].
  apply (@other_detail_entries_kept (row_views false) 2 1 stocked
           stocked_cache eq_refl stocked_registry_ok); [done|].
  vm_compute. intros H. discriminate H.
Defined.

Lemma detail_key_meets_list_key_witness :
  redis (pantry false) = Some ∅
  ∧ @super_list (row_views false) ∅ (catalog (pantry false))
    = Ok [(1%Z, cp "Apple"); (2%Z, cp "Pear")]
  ∧ (@retrieve (row_views false)
       (cp "all:page:" ++ default (cp "1") ((∅ : gmap text text) !! cp "page"))
       (@set_catalog (row_views false) []
          (@list_products (row_views false) ∅ (pantry false)).2)).1
    = Ok [(1%Z, cp "Apple"); (2%Z, cp "Pear")].
Proof.
  repeat (split; [reflexivity|]).
  exact (@detail_key_meets_list_key (row_views false) (pantry false) ∅ ∅
           [(1%Z, cp "Apple"); (2%Z, cp "Pear")] []
           eq_refl eq_refl eq_refl eq_refl).
Defined.

Lemma Category_save_fresh_slug_witness :
  instance_slug
    {| instance_id := None; instance_name := cp "Fruits";
       instance_description := []; instance_slug := [] |} = []
  ∧ ∃ slug,
      Category_save (fmap ascii_lower) CategoryInstance (λ self _, self)
        {| instance_id := None; instance_name := cp "Fruits";
           instance_description := []; instance_slug := [] |}
        [mk_category 1 "Fruits" "fruits"; mk_category 2 "Fruit salad" "fruits-1"]
      = Some {| instance_id := None; instance_name := cp "Fruits";
                instance_description := []; instance_slug := slug |}
      ∧ ∀ c,
          c ∈ [mk_category 1 "Fruits" "fruits";
               mk_category 2 "Fruit salad" "fruits-1"] →
          category_slug c = slug → Some (category_id c) = None.
Proof.
  split; [reflexivity|].
  exact (Category_save_fresh_slug (fmap ascii_lower) CategoryInstance
           (λ self _, self)
           {| instance_id := None; instance_name := cp "Fruits";
              instance_description := []; instance_slug := [] |}
           [mk_category 1 "Fruits" "fruits";
            mk_category 2 "Fruit salad" "fruits-1"] eq_refl).
Defined.

Example Category_save_third :
  Category_save (fmap ascii_lower) CategoryInstance (λ self _, self)
    {| instance_id := None; instance_name := cp "Fruits";
       instance_description := []; instance_slug := [] |}
    [mk_category 1 "Fruits" "fruits"; mk_category 2 "Fruit salad" "fruits-1"]
  = Some {| instance_id := None; instance_name := cp "Fruits";
            instance_description := []; instance_slug := cp "fruits-2" |}.
Proof. vm_compute. reflexivity. Qed.

(** Witness of X16: a new category named Fruits when [fruits] and
    [fruits-1] are taken. *)
Lemma Category_save_first_free_witness :
  instance_slug
    {| instance_id := None; instance_name := cp "Fruits";
       instance_description := []; instance_slug := [] |} = []
  ∧ ∃ k,
      Category_save (fmap ascii_lower) CategoryInstance (λ self _, self)
        {| instance_id := None; instance_name := cp "Fruits";
           instance_description := []; instance_slug := [] |}
        [mk_category 1 "Fruits" "fruits"; mk_category 2 "Fruit salad" "fruits-1"]
      = Some {| instance_id := None; instance_name := cp "Fruits";
                instance_description := [];
                instance_slug :=
                  if k =? 0 then fmap ascii_lower (cp "Fruits")
                  else fmap ascii_lower (cp "Fruits") ++ cp "-"
                       ++ cp (pretty k) |}
      ∧ k ≠ 0
      ∧ slug_taken
          [mk_category 1 "Fruits" "fruits";
           mk_category 2 "Fruit salad" "fruits-1"] None
          (if k =? 0 then fmap ascii_lower (cp "Fruits")
           else fmap ascii_lower (cp "Fruits") ++ cp "-" ++ cp (pretty k))
        = false.
Proof.
  split; [reflexivity|].
  destruct (Category_save_first_free (fmap ascii_lower) CategoryInstance
              (λ self _, self)
              {| instance_id := None; instance_name := cp "Fruits";
                 instance_description := []; instance_slug := [] |}
              [mk_category 1 "Fruits" "fruits";
               mk_category 2 "Fruit salad" "fruits-1"] eq_refl)
    as [k [Hrun [Hfree [Hzero _]]]].
  exists k. split; [exact Hrun|]. split; [|exact Hfree].
  intros Hk. apply Hzero in Hk. vm_compute in Hk. discriminate Hk.
Defined.

(** An existing category saved again without a slug takes its own back. *)
Example Category_save_own_slug :
  Category_save (fmap ascii_lower) CategoryInstance (λ self _, self)
    {| instance_id := Some 1%Z; instance_name := cp "Fruits";
       instance_description := []; instance_slug := [] |}
    [mk_category 1 "Fruits" "fruits"; mk_category 2 "Fruit salad" "fruits-1"]
  = Some {| instance_id := Some 1%Z; instance_name := cp "Fruits";
            instance_description := []; instance_slug := cp "fruits" |}.
Proof. vm_compute. reflexivity. Qed.

Lemma handle_batches_witness :
  (0 < 2)%Z
  ∧ ∃ st,
      handle (λ i, i) 5 2 = Some st
      ∧ products st = []
      ∧ concat (batches st) = (λ i, i) <$> seq 0 (Z.to_nat 5).
Proof.
  split; [lia|].
  destruct (handle_batches (λ i : nat, i) 5 2 ltac:(lia))
    as [st [Hrun [Hnone [Hall _]]]].
  exists st. repeat split; assumption.
Defined.

Example handle_five_by_two :
  batches <$> handle (λ i, i) 5 2 = Some [[0; 1]; [2; 3]; [4]]%nat.
Proof. vm_compute. reflexivity. Qed.

(** Witness of C4 (as amended): renaming product 2 over the stocked
    cache, which holds the detail entry of product 1. *)
Lemma write_invalidates_witness :
  redis stocked = Some stocked_cache
  ∧ @registry_ok (row_views false) stocked_cache
  ∧ ∃ m' lg,
      @perform_update (row_views false) (Some 2%Z, cp "Plum") stocked
      = (Ok (),
         @Build_world (row_views false)
           [(1%Z, cp "Apple"); (2%Z, cp "Plum")] (Some m') lg)
      ∧ @invalidated (row_views false) 2 stocked_cache m'
      ∧ m' !! @make_key (row_views false) (detail_cache_key (str_of_id 1))
        = stocked_cache
            !! @make_key (row_views false) (detail_cache_key (str_of_id 1)).
Proof.
  split; [reflexivity|]. split; [exact stocked_registry_ok|].
  destruct (proj1 (@write_invalidates (row_views false) stocked
                     stocked_cache eq_refl stocked_registry_ok)
              (Some 2%Z, cp "Plum") 2%Z
              [(1%Z, cp "Apple"); (2%Z, cp "Plum")] eq_refl)
    as [m' [lg [_ [Hupdate [Hinv [_ [_ Hother]]]]]]].
  exists m', lg. split; [exact Hupdate|]. split; [exact Hinv|].
  apply Hother; [done|].
  vm_compute. intros H. discriminate H.
Defined.

Example stocked_after_update :
  match @perform_update (row_views false) (Some 2%Z, cp "Plum") stocked with
  | (Ok _, w) => (λ m, fst <$> map_to_list m) <$> redis w
  | _ => None
  end
  = Some [cp ":1:products:1"].
Proof. vm_compute. reflexivity. Qed.

(** Witness of C8 (as amended): a detail read and a write over the empty
    cache. *)
Lemma cache_key_scheme_witness :
  redis (pantry false) = Some ∅
  ∧ (∀ page_number,
       @swept (row_views false) (cp "products:all:*")
         (cp ":1:" ++ cp "products:all:page:" ++ page_number) = true)
  ∧ @retrieve (row_views false) (cp "2") (pantry false)
    = (Ok [(2%Z, cp "Pear")],
       @set_redis (row_views false)
         (<[cp ":1:" ++ cp "products:" ++ cp "2"
            := @EString (row_views false) [(2%Z, cp "Pear")] 600]> ∅)
         (pantry false))
  ∧ ∃ m',
      redis (@perform_update (row_views false) (Some 1%Z, cp "Apricot")
               (pantry false)).2
      = Some m'
      ∧ (m' !! cp "search_keys"
         = (∅ : gmap text (@entry (row_views false))) !! cp "search_keys"
         ∨ m' !! cp "search_keys" = None).
Proof.
  pose proof (@cache_key_scheme (row_views false) (pantry false) ∅ eq_refl)
    as [_ [_ [_ [Hmiss [_ [Hswept [_ [_ [_ [Hupdate _]]]]]]]]]].
  split; [reflexivity|]. split; [exact Hswept|]. split.
  - apply (Hmiss (cp "2") [(2%Z, cp "Pear")]); reflexivity.
  - exact (Hupdate (Some 1%Z, cp "Apricot")).
Defined.
